(** * Safe Haven Docs: the document ledger and the client cipher

    A shallow embedding of

    - [contracts/SafeHavenDocs.sol] (the Solidity contract: one document
      record per id, an editor flag per (id, address), the registry of ids);
    - [frontend/src/lib/docCrypto.ts] (the client side encryption of a
      document body with a key derived from the 10 digit secret).

    The first part of the file holds the definitions, the second part the
    theorems about them. *)

From Stdlib Require Import ZArith NArith List String Ascii Bool Lia.
From Stdlib.Strings Require Import Byte.
From Stdlib Require Import DecimalString DecimalZ DecimalPos.
From stdpp Require Import gmap strings list fin_maps.

Local Open Scope Z_scope.

(** ** Part I. The ledger: [SafeHavenDocs.sol] *)

(** Solidity value types. [bytes32], [address], [euint64] (a handle, itself a
    [bytes32]) and the unsigned integers are integers in their range. *)
Abbreviation bytes32 := Z (only parsing).
Abbreviation address := Z (only parsing).
Abbreviation euint64 := Z (only parsing).
Abbreviation externalEuint64 := Z (only parsing).

Definition max_uint32 : Z := 2 ^ 32 - 1.
Definition max_uint256 : Z := 2 ^ 256 - 1.

(** The explicit conversion [uint40(x)] keeps the low 40 bits. *)
Definition uint40 (x : Z) : Z := x mod 2 ^ 40.

(** [struct Document]. A mapping slot that was never written reads as the
    all-zero record [empty_Document]. *)
Record Document := mkDocument {
  name : string;
  encryptedBody : string;
  encryptedKey : euint64;
  owner : address;
  createdAt : Z;
  updatedAt : Z;
  version : Z
}.

Definition empty_Document : Document :=
  mkDocument "" "" 0 0 0 0 0.

(** The custom errors of the contract, the arithmetic and array panics that
    checked arithmetic (Solidity 0.8) inserts, and the revert of the FHE
    library on an input whose proof does not verify. *)
Inductive Error :=
| InvalidName
| InvalidAddress
| DocumentAlreadyExists (documentId : bytes32)
| DocumentNotFound (documentId : bytes32)
| NotOwner (documentId : bytes32) (caller : address)
| NotEditor (documentId : bytes32) (caller : address)
| Panic (code : Z)
| InvalidInputProof.

Definition PANIC_OVERFLOW : Z := 17.      (* Panic(0x11) *)
Definition PANIC_OUT_OF_BOUNDS : Z := 50. (* Panic(0x32) *)

Inductive Event :=
| DocumentCreated (documentId : bytes32) (owner : address) (name : string)
| DocumentUpdated (documentId : bytes32) (editor : address) (version : Z)
| AccessGranted (documentId : bytes32) (owner : address) (grantee : address).

(** Contract storage: the three state variables, and the access list that
    [FHE.allow] maintains in the FHE library's ACL (pairs of a handle and an
    account allowed on it). The nested mapping [_editors] is keyed by the
    pair of its two keys. *)
Record Storage := mkStorage {
  _documents : gmap Z Document;
  _editors : gmap (Z * Z) bool;
  _documentIds : list Z;
  acl : gset (Z * Z)
}.

Definition initial : Storage := mkStorage ∅ ∅ [] ∅.

(** What the execution environment supplies to a call. *)
Record Env := mkEnv {
  msg_sender : address;
  block_timestamp : Z
}.

(** What the contract takes from outside its own source: the [keccak256]
    builtin, the address of the contract, and [FHE.fromExternal], which
    returns the handle of a verified input and reverts ([None]) otherwise. *)
Class Externals := {
  keccak256 : string -> bytes32;
  this : address;
  FHE_fromExternal : externalEuint64 -> string -> address -> option euint64
}.

(** A call reverts with an error, or returns a value, the new storage and
    the events it emitted. *)
Inductive Result (A : Type) :=
| Revert (e : Error)
| Return (a : A) (s : Storage) (log : list Event).
Arguments Revert {A} e.
Arguments Return {A} a s log.

(** Reads of the two mappings. *)
Definition document_at (s : Storage) (documentId : bytes32) : Document :=
  default empty_Document (_documents s !! documentId).

Definition editor_at (s : Storage) (documentId : bytes32) (user : address) : bool :=
  default false (_editors s !! (documentId, user)).

(** Writes. *)
Definition set_document (documentId : bytes32) (d : Document) (s : Storage) : Storage :=
  mkStorage (<[documentId := d]> (_documents s)) (_editors s) (_documentIds s) (acl s).

Definition set_editor (documentId : bytes32) (user : address) (b : bool) (s : Storage) : Storage :=
  mkStorage (_documents s) (<[(documentId, user) := b]> (_editors s)) (_documentIds s) (acl s).

Definition push_documentId (documentId : bytes32) (s : Storage) : Storage :=
  mkStorage (_documents s) (_editors s) (_documentIds s ++ [documentId]) (acl s).

(** [FHE.allow(handle, account)]. *)
Definition FHE_allow (handle : euint64) (account : address) (s : Storage) : Storage :=
  mkStorage (_documents s) (_editors s) (_documentIds s) ({[ (handle, account) ]} ∪ acl s).

Definition with_encryptedBody (b : string) (d : Document) : Document :=
  mkDocument (name d) b (encryptedKey d) (owner d) (createdAt d) (updatedAt d) (version d).

Definition with_updatedAt (t : Z) (d : Document) : Document :=
  mkDocument (name d) (encryptedBody d) (encryptedKey d) (owner d) (createdAt d) t (version d).

Definition with_version (v : Z) (d : Document) : Document :=
  mkDocument (name d) (encryptedBody d) (encryptedKey d) (owner d) (createdAt d) (updatedAt d) v.

Section Contract.
Context `{Externals}.

(** [computeDocumentId]. *)
Definition computeDocumentId (name : string) : bytes32 := keccak256 name.

(** [createDocument]. *)
Definition createDocument (e : Env) (name : string) (encryptedKey : externalEuint64)
    (inputProof : string) (s : Storage) : Result bytes32 :=
  if bool_decide (String.length name = 0%nat) then Revert InvalidName else
  let documentId := computeDocumentId name in
  if bool_decide (owner (document_at s documentId) ≠ 0) then
    Revert (DocumentAlreadyExists documentId)
  else
    match FHE_fromExternal encryptedKey inputProof (msg_sender e) with
    | None => Revert InvalidInputProof
    | Some key =>
      let s := set_document documentId
                 {| name := name;
                    encryptedBody := "";
                    encryptedKey := key;
                    owner := msg_sender e;
                    createdAt := uint40 (block_timestamp e);
                    updatedAt := uint40 (block_timestamp e);
                    version := 0 |} s in
      let s := push_documentId documentId s in
      let s := set_editor documentId (msg_sender e) true s in
      let s := FHE_allow key this s in
      let s := FHE_allow key (msg_sender e) s in
      Return documentId s [DocumentCreated documentId (msg_sender e) name]
    end.

(** [updateEncryptedBody]. The increment of the [uint32] counter is checked:
    at the maximum it panics and the whole call reverts. *)
Definition updateEncryptedBody (e : Env) (documentId : bytes32) (encryptedBody : string)
    (s : Storage) : Result unit :=
  let doc := document_at s documentId in
  if bool_decide (owner doc = 0) then Revert (DocumentNotFound documentId) else
  if negb (editor_at s documentId (msg_sender e)) then
    Revert (NotEditor documentId (msg_sender e))
  else
    let doc := with_encryptedBody encryptedBody doc in
    let doc := with_updatedAt (uint40 (block_timestamp e)) doc in
    if bool_decide (version doc + 1 > max_uint32) then Revert (Panic PANIC_OVERFLOW) else
    let doc := with_version (version doc + 1) doc in
    Return tt (set_document documentId doc s)
      [DocumentUpdated documentId (msg_sender e) (version doc)].

(** [grantAccess]. *)
Definition grantAccess (e : Env) (documentId : bytes32) (grantee : address)
    (s : Storage) : Result unit :=
  if bool_decide (grantee = 0) then Revert InvalidAddress else
  let doc := document_at s documentId in
  if bool_decide (owner doc = 0) then Revert (DocumentNotFound documentId) else
  if bool_decide (owner doc ≠ msg_sender e) then
    Revert (NotOwner documentId (msg_sender e))
  else
    let s := set_editor documentId grantee true s in
    let s := FHE_allow (encryptedKey doc) grantee s in
    Return tt s [AccessGranted documentId (msg_sender e) grantee].

(** [getDocument] (a view: the storage is returned as it was). *)
Definition getDocument (documentId : bytes32) (s : Storage) : Result Document :=
  let doc := document_at s documentId in
  if bool_decide (owner doc = 0) then Revert (DocumentNotFound documentId) else
  Return doc s [].

(** [isEditor] and [getDocumentCount]. *)
Definition isEditor (documentId : bytes32) (user : address) (s : Storage) : bool :=
  editor_at s documentId user.

Definition getDocumentCount (s : Storage) : Z :=
  Z.of_nat (length (_documentIds s)).

(** The loop of [getDocumentIds]: [for (i = offset; i < end; i++)
    ids[i - offset] = _documentIds[i]], with the bounds checks of the two
    array accesses and of the increment. [fuel] bounds the number of
    iterations; [None] is returned when it runs out. *)
Fixpoint getDocumentIds_loop (fuel : nat) (src : list Z) (offset end_ i : Z) (ids : list Z)
    : option (Error + list Z) :=
  if bool_decide (i < end_) then
    match fuel with
    | O => None
    | S fuel =>
      match src !! Z.to_nat i with
      | None => Some (inl (Panic PANIC_OUT_OF_BOUNDS))
      | Some x =>
        if bool_decide (i - offset < 0) then Some (inl (Panic PANIC_OVERFLOW)) else
        if bool_decide (Z.to_nat (i - offset) < length ids)%nat then
          let ids := <[Z.to_nat (i - offset) := x]> ids in
          if bool_decide (i + 1 > max_uint256) then Some (inl (Panic PANIC_OVERFLOW)) else
          getDocumentIds_loop fuel src offset end_ (i + 1) ids
        else Some (inl (Panic PANIC_OUT_OF_BOUNDS))
      end
    end
  else Some (inr ids).

(** [getDocumentIds]. The sum [offset + limit] is checked [uint256]
    arithmetic. The loop runs at most [total] times. *)
Definition getDocumentIds (offset limit : Z) (s : Storage) : option (Error + list Z) :=
  let total := Z.of_nat (length (_documentIds s)) in
  if bool_decide (offset >= total) then Some (inr []) else
  if bool_decide (offset + limit > max_uint256) then Some (inl (Panic PANIC_OVERFLOW)) else
  let end_ := offset + limit in
  let end_ := if bool_decide (end_ > total) then total else end_ in
  if bool_decide (end_ - offset < 0) then Some (inl (Panic PANIC_OVERFLOW)) else
  let ids := replicate (Z.to_nat (end_ - offset)) 0 in
  getDocumentIds_loop (length (_documentIds s)) (_documentIds s) offset end_ offset ids.

(** *** Transactions and histories *)

Inductive Call :=
| CreateDocument (name : string) (encryptedKey : externalEuint64) (inputProof : string)
| UpdateEncryptedBody (documentId : bytes32) (encryptedBody : string)
| GrantAccess (documentId : bytes32) (grantee : address).

(** The outcome of a transaction: the error it reverted with, or the new
    storage. *)
Definition exec (e : Env) (c : Call) (s : Storage) : Error + Storage :=
  match c with
  | CreateDocument name key proof =>
    match createDocument e name key proof s with
    | Revert err => inl err
    | Return _ s' _ => inr s'
    end
  | UpdateEncryptedBody documentId body =>
    match updateEncryptedBody e documentId body s with
    | Revert err => inl err
    | Return _ s' _ => inr s'
    end
  | GrantAccess documentId grantee =>
    match grantAccess e documentId grantee s with
    | Revert err => inl err
    | Return _ s' _ => inr s'
    end
  end.

(** A reverted transaction leaves the storage as it was. *)
Definition apply_tx (s : Storage) (tx : Env * Call) : Storage :=
  match exec tx.1 tx.2 s with
  | inl _ => s
  | inr s' => s'
  end.

Definition run (s : Storage) (txs : list (Env * Call)) : Storage :=
  fold_left apply_tx txs s.

(** The bodies written by the successful [updateEncryptedBody] calls on
    [documentId] in a history that starts in [s], oldest first. *)
Fixpoint successful_updates (documentId : bytes32) (s : Storage) (txs : list (Env * Call))
    : list string :=
  match txs with
  | [] => []
  | tx :: txs =>
    let rest := successful_updates documentId (apply_tx s tx) txs in
    match tx.2, exec tx.1 tx.2 s with
    | UpdateEncryptedBody id body, inr _ =>
      if bool_decide (id = documentId) then body :: rest else rest
    | _, _ => rest
    end
  end.

(** Whether the transaction [tx], run in [s], is a successful
    [grantAccess(documentId, grantee)]. *)
Definition grants (documentId : bytes32) (grantee : address) (s : Storage)
    (tx : Env * Call) : bool :=
  match tx.2, exec tx.1 tx.2 s with
  | GrantAccess id g, inr _ => bool_decide (id = documentId ∧ g = grantee)
  | _, _ => false
  end.

(** Whether a history that starts in [s] holds a successful
    [grantAccess(documentId, grantee)]. *)
Fixpoint was_granted (documentId : bytes32) (grantee : address) (s : Storage)
    (txs : list (Env * Call)) : bool :=
  match txs with
  | [] => false
  | tx :: txs =>
    grants documentId grantee s tx || was_granted documentId grantee (apply_tx s tx) txs
  end.

(** The caller of a transaction is an account that signed it (or a
    contract): never the zero address. *)
Definition valid_tx (tx : Env * Call) : Prop := msg_sender tx.1 ≠ 0.

(** The states the contract can be in: those a history of transactions
    leads to from the storage at deployment. *)
Definition reachable (s : Storage) : Prop :=
  ∃ txs, Forall valid_tx txs ∧ s = run initial txs.

End Contract.

(** *** The caller in the frontend

    [refreshDocuments] of the frontend, as far as the contract is asked:
    the count is read, and when it is not zero the first page of at most 20
    ids. *)
Definition refreshDocuments_ids (s : Storage) : option (Error + list Z) :=
  let count := getDocumentCount s in
  if bool_decide (count = 0) then Some (inr [])
  else
    let limit := 20 in
    getDocumentIds 0 (if bool_decide (count < limit) then count else limit) s.

(** *** A sample environment

    Concrete externals on which the statements below are evaluated: an id
    is 1000 plus the length of the name (not a hash, but enough where no two
    names of one length occur), the contract lives at address 4096, and
    every input verifies unless its proof is the string [forged]. *)
Definition sample_externals : Externals := {|
  keccak256 := fun nm => 1000 + Z.of_nat (String.length nm);
  this := 4096;
  FHE_fromExternal := fun handle proof sender =>
    if String.eqb proof "forged" then None else Some handle
|}.

(** The storage with the one document [a.txt] of account 1, created at
    time 100 with key handle 7, whose body is [body] and whose version is
    [v]. *)
Definition one_document (body : string) (v : Z) : Storage :=
  mkStorage {[ 1005 := mkDocument "a.txt" body 7 1 100 100 v ]}
            {[ (1005, 1) := true ]}
            [1005]
            ({[ (7, 1) ]} ∪ ({[ (7, 4096) ]} ∪ ∅)).

(** The history that creates [a.txt] and then updates it [n] times. *)
Definition create_then_update (n : nat) : list (Env * Call) :=
  (mkEnv 1 100, CreateDocument "a.txt" 7 "")
  :: replicate n (mkEnv 1 100, UpdateEncryptedBody 1005 "x").

(** Alice (1) creates [a.txt] and [notes.md]; she grants Bob (2) access to
    [a.txt]; Bob writes it twice; Carol (3) tries to. *)
Definition sample_history : list (Env * Call) :=
  [ (mkEnv 1 100, CreateDocument "a.txt" 7 "");
    (mkEnv 1 101, CreateDocument "notes.md" 8 "");
    (mkEnv 1 102, GrantAccess 1005 2);
    (mkEnv 2 103, UpdateEncryptedBody 1005 "v1:AAAA:BBBB");
    (mkEnv 3 104, UpdateEncryptedBody 1005 "v1:CCCC:DDDD");
    (mkEnv 2 105, UpdateEncryptedBody 1005 "v1:EEEE:FFFF") ].

(** ** Part I, continued. The client cipher: [docCrypto.ts] *)

Local Open Scope N_scope.

(** *** JavaScript values

    A JavaScript string is a sequence of UTF-16 code units (numbers below
    65536); a [Uint8Array] is a list of bytes; a [bigint] is an integer. *)
Definition jsstring : Type := list N.
Definition bytes : Type := list byte.

#[global] Instance byte_eq_decision : EqDecision byte := Byte.byte_eq_dec.

(** An ASCII literal as a JavaScript string. *)
Definition js (s : string) : jsstring :=
  map N_of_ascii (list_ascii_of_string s).

Definition is_code_unit (c : N) : Prop := c < 65536.

(** Storing a number into a [Uint8Array] keeps it modulo 256. *)
Definition byte_of_N (n : N) : byte :=
  match Byte.of_N (n mod 256) with
  | Some b => b
  | None => x00
  end.

(** What a rejected promise or a [throw] carries: the [Error] that
    [decryptDocumentBody] throws itself, and the [DOMException]s of the
    platform ([atob] and [btoa]: InvalidCharacterError;
    [crypto.subtle.encrypt] and [decrypt]: OperationError;
    [crypto.subtle.importKey]: DataError). *)
Inductive Exception :=
| Error_UnsupportedFormat
| InvalidCharacterError
| OperationError
| DataError.

(** *** Platform builtins that are functions of their argument

    [BigInt.prototype.toString(10)]. *)
Definition bigint_toString (z : Z) : jsstring :=
  js (NilZero.string_of_int (Z.to_int z)).

Definition is_lead_surrogate (c : N) : bool := (0xD800 <=? c) && (c <=? 0xDBFF).
Definition is_trail_surrogate (c : N) : bool := (0xDC00 <=? c) && (c <=? 0xDFFF).

(** The scalar values of a JavaScript string, as [TextEncoder] reads it
    (WebIDL's conversion to a USVString): a surrogate pair is one scalar
    value, a surrogate that is not part of a pair becomes U+FFFD. *)
Fixpoint to_scalar_values (s : jsstring) : list N :=
  match s with
  | [] => []
  | c :: rest =>
    if is_lead_surrogate c then
      match rest with
      | d :: rest' =>
        if is_trail_surrogate d then
          (0x10000 + (c - 0xD800) * 0x400 + (d - 0xDC00)) :: to_scalar_values rest'
        else 0xFFFD :: to_scalar_values rest
      | [] => [0xFFFD]
      end
    else if is_trail_surrogate c then 0xFFFD :: to_scalar_values rest
    else c :: to_scalar_values rest
  end.

(** The UTF-8 bytes of a scalar value. (The Encoding Standard writes the
    shifts and masks; here [x >> 6] is [x / 64] and [x & 0x3F] is
    [x mod 64].) *)
Definition utf8_encode_scalar (cp : N) : bytes :=
  if cp <? 0x80 then [byte_of_N cp]
  else if cp <? 0x800 then
    [byte_of_N (0xC0 + cp / 64); byte_of_N (0x80 + cp mod 64)]
  else if cp <? 0x10000 then
    [byte_of_N (0xE0 + cp / 4096); byte_of_N (0x80 + (cp / 64) mod 64);
     byte_of_N (0x80 + cp mod 64)]
  else
    [byte_of_N (0xF0 + cp / 262144); byte_of_N (0x80 + (cp / 4096) mod 64);
     byte_of_N (0x80 + (cp / 64) mod 64); byte_of_N (0x80 + cp mod 64)].

(** [new TextEncoder().encode(s)]. *)
Definition TextEncoder_encode (s : jsstring) : bytes :=
  flat_map utf8_encode_scalar (to_scalar_values s).

(** The UTF-8 decoder of the Encoding Standard, with its five variables. *)
Record utf8_decoder := mk_utf8_decoder {
  code_point : N;
  bytes_seen : N;
  bytes_needed : N;
  lower_boundary : N;
  upper_boundary : N
}.

Definition utf8_decoder_start : utf8_decoder := mk_utf8_decoder 0 0 0 0x80 0xBF.

(** A byte read while no sequence is open. *)
Definition utf8_lead_byte (b : N) : utf8_decoder * list N :=
  if b <=? 0x7F then (utf8_decoder_start, [b])
  else if (0xC2 <=? b) && (b <=? 0xDF) then
    (mk_utf8_decoder (b mod 32) 0 1 0x80 0xBF, [])
  else if (0xE0 <=? b) && (b <=? 0xEF) then
    (mk_utf8_decoder (b mod 16) 0 2
       (if b =? 0xE0 then 0xA0 else 0x80) (if b =? 0xED then 0x9F else 0xBF), [])
  else if (0xF0 <=? b) && (b <=? 0xF4) then
    (mk_utf8_decoder (b mod 8) 0 3
       (if b =? 0xF0 then 0x90 else 0x80) (if b =? 0xF4 then 0x8F else 0xBF), [])
  else (utf8_decoder_start, [0xFFFD]).

(** One byte through the decoder: the new state and the scalar values that
    come out. A byte outside the boundaries ends the open sequence with
    U+FFFD and is read again as a lead byte. *)
Definition utf8_decoder_step (st : utf8_decoder) (b : N) : utf8_decoder * list N :=
  if bytes_needed st =? 0 then utf8_lead_byte b
  else if negb ((lower_boundary st <=? b) && (b <=? upper_boundary st)) then
    (fst (utf8_lead_byte b), 0xFFFD :: snd (utf8_lead_byte b))
  else
    let cp := code_point st * 64 + b mod 64 in
    if bytes_seen st + 1 =? bytes_needed st then (utf8_decoder_start, [cp])
    else (mk_utf8_decoder cp (bytes_seen st + 1) (bytes_needed st) 0x80 0xBF, []).

(** The whole input; a sequence left open at the end gives U+FFFD. *)
Fixpoint utf8_decode_from (st : utf8_decoder) (input : bytes) : list N :=
  match input with
  | [] => if bytes_needed st =? 0 then [] else [0xFFFD]
  | b :: rest =>
    snd (utf8_decoder_step st (Byte.to_N b))
    ++ utf8_decode_from (fst (utf8_decoder_step st (Byte.to_N b))) rest
  end.

(** The UTF-16 code units of a scalar value. *)
Definition utf16_encode_scalar (cp : N) : jsstring :=
  if cp <? 0x10000 then [cp]
  else [0xD800 + (cp - 0x10000) / 0x400; 0xDC00 + (cp - 0x10000) mod 0x400].

(** A decoder made by [new TextDecoder()] does not ignore the byte order
    mark: a leading U+FEFF is dropped from the output. *)
Definition strip_BOM (cps : list N) : list N :=
  match cps with
  | c :: rest => if c =? 0xFEFF then rest else cps
  | [] => []
  end.

(** [new TextDecoder().decode(input)]: UTF-8, not fatal. *)
Definition TextDecoder_decode (input : bytes) : jsstring :=
  flat_map utf16_encode_scalar (strip_BOM (utf8_decode_from utf8_decoder_start input)).

(** The base64 alphabet. *)
Definition base64_char (n : N) : N :=
  if n <? 26 then 65 + n
  else if n <? 52 then 97 + (n - 26)
  else if n <? 62 then 48 + (n - 52)
  else if n =? 62 then 43
  else 47.

Definition base64_index (c : N) : option N :=
  if (65 <=? c) && (c <=? 90) then Some (c - 65)
  else if (97 <=? c) && (c <=? 122) then Some (c - 97 + 26)
  else if (48 <=? c) && (c <=? 57) then Some (c - 48 + 52)
  else if c =? 43 then Some 62
  else if c =? 47 then Some 63
  else None.

Fixpoint base64_encode (l : list N) : jsstring :=
  match l with
  | [] => []
  | [a] => [base64_char (a / 4); base64_char ((a mod 4) * 16); 61; 61]
  | [a; b] =>
    [base64_char (a / 4); base64_char ((a mod 4) * 16 + b / 16);
     base64_char ((b mod 16) * 4); 61]
  | a :: b :: c :: rest =>
    base64_char (a / 4) :: base64_char ((a mod 4) * 16 + b / 16)
    :: base64_char ((b mod 16) * 4 + c / 64) :: base64_char (c mod 64)
    :: base64_encode rest
  end.

(** [btoa(s)]: throws when a code unit is above 255. *)
Definition btoa (s : jsstring) : Exception + jsstring :=
  if forallb (fun c => c <=? 255) s then inr (base64_encode s)
  else inl InvalidCharacterError.

Definition is_ascii_whitespace (c : N) : bool :=
  (c =? 9) || (c =? 10) || (c =? 12) || (c =? 13) || (c =? 32).

(** One or two [=] at the end are removed. *)
Definition strip_padding (data : jsstring) : jsstring :=
  match rev data with
  | c1 :: c2 :: r =>
    if c1 =? 61 then if c2 =? 61 then rev r else rev (c2 :: r) else data
  | [c1] => if c1 =? 61 then [] else data
  | [] => data
  end.

(** Groups of four sextets give three bytes; two or three sextets left at
    the end give one or two bytes, the bits left over are dropped. *)
Fixpoint base64_decode (l : list N) : list N :=
  match l with
  | a :: b :: c :: d :: rest =>
    let n := ((a * 64 + b) * 64 + c) * 64 + d in
    n / 65536 :: (n / 256) mod 256 :: n mod 256 :: base64_decode rest
  | [a; b; c] =>
    let n := (a * 64 + b) * 64 + c in [n / 1024; (n / 4) mod 256]
  | [a; b] => [(a * 64 + b) / 16]
  | _ => []
  end.

(** [atob(data)], the forgiving-base64 decode of the HTML Standard. *)
Definition atob (data : jsstring) : Exception + jsstring :=
  let data := List.filter (fun c => negb (is_ascii_whitespace c)) data in
  let data := if N.of_nat (length data) mod 4 =? 0 then strip_padding data else data in
  if N.of_nat (length data) mod 4 =? 1 then inl InvalidCharacterError else
  match mapM base64_index data with
  | None => inl InvalidCharacterError
  | Some sextets => inr (base64_decode sextets)
  end.

(** [s.split(sep)] for a separator of one code unit. *)
Fixpoint split_on (sep : N) (s : jsstring) : list jsstring :=
  match s with
  | [] => [[]]
  | c :: rest =>
    if c =? sep then [] :: split_on sep rest
    else match split_on sep rest with
         | p :: ps => (c :: p) :: ps
         | [] => [[c]]
         end
  end.

(** *** The platform calls that are awaited

    [crypto.subtle.digest], [importKey], [encrypt] and [decrypt] return
    promises, and [crypto.getRandomValues] reads the random source: a
    computation is a tree of such calls. *)
Definition CryptoKey : Type := bytes.

Inductive PlatformCall : Type -> Type :=
| subtle_digest_SHA256 (data : bytes) : PlatformCall bytes
| subtle_importKey_raw_AES_GCM (keyData : bytes) : PlatformCall CryptoKey
| subtle_encrypt_AES_GCM (iv : bytes) (key : CryptoKey) (data : bytes) : PlatformCall bytes
| subtle_decrypt_AES_GCM (iv : bytes) (key : CryptoKey) (data : bytes) : PlatformCall bytes
| getRandomValues (n : nat) : PlatformCall bytes.

Inductive Promise (A : Type) : Type :=
| Resolve (a : A)
| Reject (e : Exception)
| Await {X : Type} (c : PlatformCall X) (k : X -> Promise A).
Arguments Resolve {A} a.
Arguments Reject {A} e.
Arguments Await {A X} c k.

Fixpoint Promise_bind {A B} (p : Promise A) (f : A -> Promise B) : Promise B :=
  match p with
  | Resolve a => f a
  | Reject e => Reject e
  | Await c k => Await c (fun x => Promise_bind (k x) f)
  end.

(** A value or a thrown exception, inside an [async] function. *)
Definition Promise_of {A} (r : Exception + A) : Promise A :=
  match r with
  | inl e => Reject e
  | inr a => Resolve a
  end.

Notation "'let_await' x := c 'in' k" := (Await c (fun x => k))
  (at level 10, x name, c at level 200, k at level 200, only parsing).
Notation "'let_async' x := p 'in' k" := (Promise_bind p (fun x => k))
  (at level 10, x name, p at level 200, k at level 200, only parsing).
Notation "'let_try' x := r 'in' k" := (Promise_bind (Promise_of r) (fun x => k))
  (at level 10, x name, r at level 200, k at level 200, only parsing).

(** The number of platform calls a computation makes on the path its
    continuations take for the answers [answer] gives. *)
Fixpoint calls_made {A} (answer : ∀ X, PlatformCall X -> option X) (p : Promise A) : nat :=
  match p with
  | Resolve _ | Reject _ => O
  | Await c k =>
    match answer _ c with
    | Some x => S (calls_made answer (k x))
    | None => 1%nat
    end
  end.

(** The cryptography behind [crypto.subtle]: SHA-256, and AES-GCM
    encryption and decryption under a raw key and an initialisation vector
    (decryption answers [None] when the tag does not verify). *)
Record WebCrypto := {
  SHA256 : bytes -> bytes;
  AES_GCM_encrypt : CryptoKey -> bytes -> bytes -> bytes;
  AES_GCM_decrypt : CryptoKey -> bytes -> bytes -> option bytes
}.

(** What the platform guarantees: a digest of 32 bytes, and decryption of
    what encryption produced, under the same key and vector. *)
Record WebCrypto_lawful (W : WebCrypto) : Prop := {
  SHA256_length : ∀ data, length (SHA256 W data) = 32%nat;
  AES_GCM_decrypt_encrypt : ∀ key iv data,
    AES_GCM_decrypt W key iv (AES_GCM_encrypt W key iv data) = Some data
}.

(** How the platform answers a call: [importKey] accepts raw AES keys of
    128, 192 and 256 bits; [getRandomValues] fills [n] bytes from the random
    source [entropy]. *)
Definition platform (W : WebCrypto) (entropy : bytes) {X} (c : PlatformCall X)
    : Exception + X :=
  match c in PlatformCall X return Exception + X with
  | subtle_digest_SHA256 data => inr (SHA256 W data)
  | subtle_importKey_raw_AES_GCM keyData =>
    if (length keyData =? 16)%nat || (length keyData =? 24)%nat
       || (length keyData =? 32)%nat
    then inr keyData else inl DataError
  | subtle_encrypt_AES_GCM iv key data => inr (AES_GCM_encrypt W key iv data)
  | subtle_decrypt_AES_GCM iv key data =>
    match AES_GCM_decrypt W key iv data with
    | Some clear => inr clear
    | None => inl OperationError
    end
  | getRandomValues n => inr (take n (entropy ++ replicate n x00))
  end.

(** Running a computation: a rejected call rejects the whole. *)
Fixpoint settle (W : WebCrypto) (entropy : bytes) {A} (p : Promise A) : Exception + A :=
  match p with
  | Resolve a => inr a
  | Reject e => inl e
  | Await c k =>
    match platform W entropy c with
    | inl e => inl e
    | inr x => settle W entropy (k x)
    end
  end.

(** *** The functions of [docCrypto.ts] *)

(** The loop of [bytesToBase64]: [for (i = 0; i < bytes.length; i +=
    chunkSize) binary += String.fromCharCode(...bytes.subarray(i, i +
    chunkSize))]. Every round moves [i] forward, so [fuel = bytes.length]
    rounds are enough. *)
Definition chunkSize : N := 0x8000.

Definition subarray (b : bytes) (begin end_ : N) : bytes :=
  take (N.to_nat (end_ - begin)) (drop (N.to_nat begin) b).

Definition String_fromCharCode (codes : bytes) : jsstring := map Byte.to_N codes.

Fixpoint bytesToBase64_loop (fuel : nat) (b : bytes) (i : N) (binary : jsstring)
    : option jsstring :=
  if i <? N.of_nat (length b) then
    match fuel with
    | O => None
    | S fuel =>
      bytesToBase64_loop fuel b (i + chunkSize)
        (binary ++ String_fromCharCode (subarray b i (i + chunkSize)))
    end
  else Some binary.

(** [bytesToBase64]. (The loop never runs out of fuel, see
    [bytesToBase64_loop_terminates]; the branch for it is not taken.) *)
Definition bytesToBase64 (b : bytes) : Exception + jsstring :=
  match bytesToBase64_loop (length b) b 0 [] with
  | Some binary => btoa binary
  | None => inr []
  end.

(** [base64ToBytes]: [bytes[i] = binary.charCodeAt(i)] for every index. *)
Definition base64ToBytes (base64 : jsstring) : Exception + bytes :=
  match atob base64 with
  | inl e => inl e
  | inr binary => inr (map byte_of_N binary)
  end.

(** [deriveAesKeyFromSecret]. *)
Definition deriveAesKeyFromSecret (secret : Z) : Promise CryptoKey :=
  let secretBytes := TextEncoder_encode (bigint_toString secret) in
  let_await hash := subtle_digest_SHA256 secretBytes in
  let_await key := subtle_importKey_raw_AES_GCM hash in
  Resolve key.

(** [encryptDocumentBody]. *)
Definition encryptDocumentBody (secret : Z) (plaintext : jsstring) : Promise jsstring :=
  let_async key := deriveAesKeyFromSecret secret in
  let_await iv := getRandomValues 12 in
  let clearBytes := TextEncoder_encode plaintext in
  let_await ciphertext := subtle_encrypt_AES_GCM iv key clearBytes in
  let_try iv64 := bytesToBase64 iv in
  let_try ciphertext64 := bytesToBase64 ciphertext in
  Resolve (js "v1:" ++ iv64 ++ js ":" ++ ciphertext64).

(** [decryptDocumentBody]. [!payload] holds of the empty string only. *)
Definition decryptDocumentBody (secret : Z) (payload : jsstring) : Promise jsstring :=
  if bool_decide (payload = []) then Resolve [] else
  let parts := split_on 58 payload in
  if negb (length parts =? 3)%nat || negb (bool_decide (nth 0 parts [] = js "v1")) then
    Reject Error_UnsupportedFormat
  else
    let_async key := deriveAesKeyFromSecret secret in
    let_try iv := base64ToBytes (nth 1 parts []) in
    let_try ciphertext := base64ToBytes (nth 2 parts []) in
    let_await clear := subtle_decrypt_AES_GCM iv key ciphertext in
    Resolve (TextDecoder_decode clear).

(** A string without unpaired surrogates, made of code units. *)
Fixpoint well_formed (s : jsstring) : bool :=
  match s with
  | [] => true
  | c :: rest =>
    if is_lead_surrogate c then
      match rest with
      | d :: rest' => is_trail_surrogate d && well_formed rest'
      | [] => false
      end
    else negb (is_trail_surrogate c) && (c <? 65536) && well_formed rest
  end.

(** *** Notions the proofs use

    The sextets [base64_encode] writes, and the padding it ends with. *)
Fixpoint base64_sextets (l : list N) : list N :=
  match l with
  | [] => []
  | [a] => [a / 4; (a mod 4) * 16]
  | [a; b] => [a / 4; (a mod 4) * 16 + b / 16; (b mod 16) * 4]
  | a :: b :: c :: rest =>
    a / 4 :: (a mod 4) * 16 + b / 16 :: (b mod 16) * 4 + c / 64 :: c mod 64
    :: base64_sextets rest
  end.

Fixpoint base64_padding (l : list N) : jsstring :=
  match l with
  | [] => []
  | [_] => [61; 61]
  | [_; _] => [61]
  | _ :: _ :: _ :: rest => base64_padding rest
  end.

(** The parts of a split, put together again. *)
Fixpoint join_with (sep : N) (parts : list jsstring) : jsstring :=
  match parts with
  | [] => []
  | [p] => p
  | p :: ps => p ++ sep :: join_with sep ps
  end.

(** The raw AES key [deriveAesKeyFromSecret] imports for a secret. *)
Definition derived_key (W : WebCrypto) (secret : Z) : CryptoKey :=
  SHA256 W (TextEncoder_encode (bigint_toString secret)).

(** The payload [encryptDocumentBody] builds from a vector and a
    ciphertext. *)
Definition payload_of (iv ciphertext : bytes) : jsstring :=
  js "v1:" ++ base64_encode (String_fromCharCode iv) ++ js ":"
  ++ base64_encode (String_fromCharCode ciphertext).

(** A scalar value: a code point that is not a surrogate. *)
Definition is_scalar_value (cp : N) : Prop :=
  cp < 0x110000 ∧ ¬ (0xD800 <= cp <= 0xDFFF).

(** *** A sample platform

    Stand-ins on which the statements below are evaluated; they keep the
    laws of [WebCrypto_lawful] and are not cryptography: the digest is the
    input cut or padded to 32 bytes, the ciphertext is the clear text
    followed by a 16 byte tag made of the key and the vector. *)
Definition sample_tag (key iv : bytes) : bytes :=
  take 16 (key ++ iv ++ replicate 16 x00).

Definition sample_crypto : WebCrypto := {|
  SHA256 := fun data => take 32 (data ++ replicate 32 x00);
  AES_GCM_encrypt := fun key iv data => data ++ sample_tag key iv;
  AES_GCM_decrypt := fun key iv data =>
    if bool_decide (drop (length data - 16) data = sample_tag key iv
                    ∧ (16 <= length data)%nat)
    then Some (take (length data - 16) data) else None
|}.

Definition sample_entropy : bytes :=
  [x01; x02; x03; x04; x05; x06; x07; x08; x09; x0a; x0b; x0c; x0d].

Local Close Scope N_scope.

(** *** Helpers of the frontend

    [generate10DigitSecret]; its arguments are the two 32 bit words that
    [crypto.getRandomValues(new Uint32Array(2))] returns. ([%] on bigints is
    the remainder of the truncated division.) *)
Definition generate10DigitSecret (random0 random1 : Z) : Z :=
  let maxExclusive := 9000000000 in
  let minInclusive := 1000000000 in
  let range := maxExclusive in
  let x := Z.shiftl random0 32 + random1 in
  minInclusive + Z.rem x range.

(** [s.slice(start, end)] for integer arguments: a negative index counts
    from the end. *)
Definition String_slice (s : jsstring) (start end_ : Z) : jsstring :=
  let len := Z.of_nat (length s) in
  let from := if start <? 0 then Z.max (len + start) 0 else Z.min start len in
  let to := if end_ <? 0 then Z.max (len + end_) 0 else Z.min end_ len in
  take (Z.to_nat (to - from)) (drop (Z.to_nat from) s).

(** [shortHex(value, start, end)] of [lib/format.ts] (the defaults are
    [start = 6] and [end = 4]); [value.slice(-end)] has no second argument,
    which stands for the length. *)
Definition shortHex (value : jsstring) (start end_ : Z) : jsstring :=
  if bool_decide (value = []) then [] else
  if bool_decide (Z.of_nat (length value) <= start + end_ + 2) then value else
  String_slice value 0 (start + 2) ++ [8230%N]
  ++ String_slice value (- end_) (Z.of_nat (length value)).

(** ** Part II. Theorems about the ledger *)

Section LedgerFacts.
Context `{Externals}.

(** *** Reads after writes *)

Lemma document_at_set_document s id d id' :
  document_at (set_document id d s) id' = if decide (id = id') then d else document_at s id'.
Proof.
  unfold document_at, set_document; simpl.
  rewrite lookup_insert. destruct (decide (id = id')); reflexivity.
Qed.

Lemma editor_at_set_editor s id a b id' a' :
  editor_at (set_editor id a b s) id' a' =
  if decide ((id, a) = (id', a')) then b else editor_at s id' a'.
Proof.
  unfold editor_at, set_editor; simpl.
  rewrite lookup_insert. destruct (decide ((id, a) = (id', a'))); reflexivity.
Qed.

(** *** What a successful call did *)

Lemma createDocument_Return e nm key proof s id s' log :
  createDocument e nm key proof s = Return id s' log ->
  nm ≠ "" ∧ id = computeDocumentId nm ∧ owner (document_at s id) = 0 ∧
  ∃ k, FHE_fromExternal key proof (msg_sender e) = Some k ∧
    s' = FHE_allow k (msg_sender e) (FHE_allow k this
           (set_editor id (msg_sender e) true (push_documentId id
             (set_document id
                (mkDocument nm "" k (msg_sender e) (uint40 (block_timestamp e))
                   (uint40 (block_timestamp e)) 0) s)))).
Proof.
  unfold createDocument. intros Hc.
  case_bool_decide as Hn; [discriminate|].
  case_bool_decide as Ho; [discriminate|].
  destruct (FHE_fromExternal key proof (msg_sender e)) as [k|] eqn:Hk; [|discriminate].
  injection Hc as <- <- <-.
  split; [|split; [reflexivity|split]].
  - intros ->. apply Hn. reflexivity.
  - destruct (decide (owner (document_at s (computeDocumentId nm)) = 0)); [assumption|contradiction].
  - exists k. split; reflexivity.
Qed.

Lemma updateEncryptedBody_Return e id body s u s' log :
  updateEncryptedBody e id body s = Return u s' log ->
  owner (document_at s id) ≠ 0 ∧ editor_at s id (msg_sender e) = true ∧
  version (document_at s id) + 1 <= max_uint32 ∧
  s' = set_document id
         (with_version (version (document_at s id) + 1)
            (with_updatedAt (uint40 (block_timestamp e))
               (with_encryptedBody body (document_at s id)))) s.
Proof.
  unfold updateEncryptedBody. intros Hu.
  case_bool_decide as Ho; [discriminate|].
  destruct (editor_at s id (msg_sender e)) eqn:He; simpl in Hu; [|discriminate].
  case_bool_decide as Hv; [discriminate|].
  injection Hu as <- <-.
  repeat split; [assumption|lia].
Qed.

Lemma grantAccess_Return e id g s u s' log :
  grantAccess e id g s = Return u s' log ->
  g ≠ 0 ∧ owner (document_at s id) ≠ 0 ∧ owner (document_at s id) = msg_sender e ∧
  s' = FHE_allow (encryptedKey (document_at s id)) g (set_editor id g true s).
Proof.
  unfold grantAccess. intros Hg.
  case_bool_decide as Hz; [discriminate|].
  case_bool_decide as Ho; [discriminate|].
  case_bool_decide as Hw; [discriminate|].
  injection Hg as <- <-.
  repeat split; assumption.
Qed.

(** *** One transaction *)

Lemma document_at_FHE_allow k a s id :
  document_at (FHE_allow k a s) id = document_at s id.
Proof. reflexivity. Qed.

Lemma document_at_set_editor i a b s id :
  document_at (set_editor i a b s) id = document_at s id.
Proof. reflexivity. Qed.

Lemma document_at_push i s id :
  document_at (push_documentId i s) id = document_at s id.
Proof. reflexivity. Qed.

Lemma editor_at_FHE_allow k a s id u :
  editor_at (FHE_allow k a s) id u = editor_at s id u.
Proof. reflexivity. Qed.

Lemma editor_at_set_document i d s id u :
  editor_at (set_document i d s) id u = editor_at s id u.
Proof. reflexivity. Qed.

Lemma editor_at_push i s id u :
  editor_at (push_documentId i s) id u = editor_at s id u.
Proof. reflexivity. Qed.

(** The three ways a transaction can go through, and the revert. *)
Inductive step (s : Storage) : Env * Call -> Storage -> Prop :=
| step_revert tx err :
    exec tx.1 tx.2 s = inl err -> step s tx s
| step_create e nm key proof k :
    nm ≠ "" ->
    owner (document_at s (computeDocumentId nm)) = 0 ->
    FHE_fromExternal key proof (msg_sender e) = Some k ->
    (∃ s', exec e (CreateDocument nm key proof) s = inr s') ->
    step s (e, CreateDocument nm key proof)
      (FHE_allow k (msg_sender e) (FHE_allow k this
         (set_editor (computeDocumentId nm) (msg_sender e) true
            (push_documentId (computeDocumentId nm)
               (set_document (computeDocumentId nm)
                  (mkDocument nm "" k (msg_sender e) (uint40 (block_timestamp e))
                     (uint40 (block_timestamp e)) 0) s)))))
| step_update e id body :
    owner (document_at s id) ≠ 0 ->
    editor_at s id (msg_sender e) = true ->
    version (document_at s id) + 1 <= max_uint32 ->
    exec e (UpdateEncryptedBody id body) s =
      inr (set_document id
             (with_version (version (document_at s id) + 1)
                (with_updatedAt (uint40 (block_timestamp e))
                   (with_encryptedBody body (document_at s id)))) s) ->
    step s (e, UpdateEncryptedBody id body)
      (set_document id
         (with_version (version (document_at s id) + 1)
            (with_updatedAt (uint40 (block_timestamp e))
               (with_encryptedBody body (document_at s id)))) s)
| step_grant e id g :
    g ≠ 0 ->
    owner (document_at s id) ≠ 0 ->
    owner (document_at s id) = msg_sender e ->
    exec e (GrantAccess id g) s =
      inr (FHE_allow (encryptedKey (document_at s id)) g (set_editor id g true s)) ->
    step s (e, GrantAccess id g)
      (FHE_allow (encryptedKey (document_at s id)) g (set_editor id g true s)).

Lemma apply_tx_step s tx : step s tx (apply_tx s tx).
Proof.
  destruct tx as [e c]. unfold apply_tx. simpl.
  destruct (exec e c s) as [err|s'] eqn:Hx.
  { eapply step_revert. simpl. exact Hx. }
  destruct c as [nm key proof|id body|id g]; simpl in Hx.
  - destruct (createDocument e nm key proof s) as [|id s1 log] eqn:Hc; [discriminate|].
    injection Hx as <-.
    pose proof Hc as Hc'.
    apply createDocument_Return in Hc as (Hn & -> & Ho & k & Hk & ->).
    apply step_create; try assumption. simpl. rewrite Hc'. by eexists.
  - destruct (updateEncryptedBody e id body s) as [|u s1 log] eqn:Hc; [discriminate|].
    injection Hx as <-.
    pose proof Hc as Hc'.
    apply updateEncryptedBody_Return in Hc as (Ho & He & Hv & ->).
    apply step_update; try assumption. simpl. by rewrite Hc'.
  - destruct (grantAccess e id g s) as [|u s1 log] eqn:Hc; [discriminate|].
    injection Hx as <-.
    pose proof Hc as Hc'.
    apply grantAccess_Return in Hc as (Hg & Ho & Hw & ->).
    apply step_grant; try assumption. simpl. by rewrite Hc'.
Qed.

Lemma last_cons_default {A} (x : A) l d : List.last (x :: l) d = List.last l x.
Proof.
  revert x d. induction l as [|y l IH]; intros x d; [reflexivity|].
  change (List.last (x :: y :: l) d) with (List.last (y :: l) d).
  rewrite !IH. reflexivity.
Qed.

(** *** The version counter and the body along a history *)

(** As long as the slot of [id] is free, its counter and body are zero. *)
Definition free_slot_is_zero (id : bytes32) (s : Storage) : Prop :=
  owner (document_at s id) = 0 ->
  version (document_at s id) = 0 ∧ encryptedBody (document_at s id) = "".

Lemma free_slot_is_zero_step id s tx : 
  free_slot_is_zero id s -> free_slot_is_zero id (apply_tx s tx).
Proof.
  intros Hf. destruct (apply_tx_step s tx) as [tx err Hx|e nm key proof k Hn Ho Hk Hx|e i body Ho He Hv Hx|e i g Hg Ho Hw Hx];
    try assumption; unfold free_slot_is_zero in *.
  - rewrite !document_at_FHE_allow, document_at_set_editor, document_at_push, document_at_set_document.
    destruct (decide (computeDocumentId nm = id)); [simpl; tauto|assumption].
  - rewrite document_at_set_document.
    destruct (decide (i = id)) as [->|]; [simpl; intros; contradiction|assumption].
Qed.

Lemma updates_along_history id txs : ∀ s,
  free_slot_is_zero id s ->
  version (document_at (run s txs) id) =
    version (document_at s id) + Z.of_nat (length (successful_updates id s txs)) ∧
  encryptedBody (document_at (run s txs) id) =
    List.last (successful_updates id s txs) (encryptedBody (document_at s id)).
Proof.
  induction txs as [|tx txs IH]; intros s Hf.
  { simpl. split; [lia|reflexivity]. }
  destruct (IH (apply_tx s tx) (free_slot_is_zero_step id s tx Hf)) as [IHv IHb].
  change (run s (tx :: txs)) with (run (apply_tx s tx) txs).
  rewrite IHv, IHb. clear IH IHv IHb.
  cbn [successful_updates].
  destruct (apply_tx_step s tx) as [tx err Hx|e nm key proof k Hn Ho Hk [s' Hx]|e i body Ho He Hv Hx|e i g Hg Ho Hw Hx].
  - rewrite Hx. split; destruct tx.2; reflexivity.
  - cbn [fst snd]. 
    rewrite !document_at_FHE_allow, document_at_set_editor, document_at_push, document_at_set_document.
    destruct (decide (computeDocumentId nm = id)) as [<-|]; [|split; reflexivity].
    destruct (Hf Ho) as [-> ->]. split; reflexivity.
  - cbn [fst snd]. rewrite Hx, document_at_set_document.
    case_bool_decide as Hi.
    + subst i. rewrite decide_True by reflexivity. 
      rewrite last_cons_default. cbn [length]. simpl version. simpl encryptedBody.
      split; [lia|reflexivity].
    + rewrite decide_False by assumption. split; reflexivity.
  - cbn [fst snd]. rewrite document_at_FHE_allow, document_at_set_editor. split; reflexivity.
Qed.

(** *** What no transaction changes *)

Lemma run_snoc s txs tx : run s (txs ++ [tx]) = apply_tx (run s txs) tx.
Proof. unfold run. rewrite fold_left_app. reflexivity. Qed.

Lemma apply_tx_frame s tx id :
  owner (document_at s id) ≠ 0 ->
  name (document_at (apply_tx s tx) id) = name (document_at s id) ∧
  owner (document_at (apply_tx s tx) id) = owner (document_at s id) ∧
  createdAt (document_at (apply_tx s tx) id) = createdAt (document_at s id) ∧
  encryptedKey (document_at (apply_tx s tx) id) = encryptedKey (document_at s id).
Proof.
  intros Hex.
  destruct (apply_tx_step s tx) as [tx err Hx|e nm key proof k Hn Ho Hk Hx|e i body Ho He Hv Hx|e i g Hg Ho Hw Hx].
  - repeat split.
  - rewrite !document_at_FHE_allow, document_at_set_editor, document_at_push, document_at_set_document.
    destruct (decide (computeDocumentId nm = id)) as [<-|]; [contradiction|repeat split].
  - rewrite document_at_set_document.
    destruct (decide (i = id)) as [->|]; repeat split.
  - rewrite document_at_FHE_allow, document_at_set_editor. repeat split.
Qed.

Lemma apply_tx_editor_mono s tx id a :
  editor_at s id a = true -> editor_at (apply_tx s tx) id a = true.
Proof.
  intros Hed.
  destruct (apply_tx_step s tx) as [tx err Hx|e nm key proof k Hn Ho Hk Hx|e i body Ho He Hv Hx|e i g Hg Ho Hw Hx].
  - assumption.
  - rewrite !editor_at_FHE_allow, editor_at_set_editor, editor_at_push, editor_at_set_document.
    destruct (decide _); [reflexivity|assumption].
  - rewrite editor_at_set_document. assumption.
  - rewrite editor_at_FHE_allow, editor_at_set_editor.
    destruct (decide _); [reflexivity|assumption].
Qed.

Lemma apply_tx_ids_prefix s tx :
  _documentIds s `prefix_of` _documentIds (apply_tx s tx).
Proof.
  destruct (apply_tx_step s tx) as [tx err Hx|e nm key proof k Hn Ho Hk Hx|e i body Ho He Hv Hx|e i g Hg Ho Hw Hx];
    simpl; try reflexivity.
  by apply prefix_app_r.
Qed.

Lemma apply_tx_acl_mono s tx : acl s ⊆ acl (apply_tx s tx).
Proof.
  destruct (apply_tx_step s tx) as [tx err Hx|e nm key proof k Hn Ho Hk Hx|e i body Ho He Hv Hx|e i g Hg Ho Hw Hx];
    simpl; set_solver.
Qed.

Lemma run_frame txs : ∀ s id,
  owner (document_at s id) ≠ 0 ->
  name (document_at (run s txs) id) = name (document_at s id) ∧
  owner (document_at (run s txs) id) = owner (document_at s id) ∧
  createdAt (document_at (run s txs) id) = createdAt (document_at s id) ∧
  encryptedKey (document_at (run s txs) id) = encryptedKey (document_at s id).
Proof.
  induction txs as [|tx txs IH]; intros s id Hex; [repeat split|].
  change (run s (tx :: txs)) with (run (apply_tx s tx) txs).
  destruct (apply_tx_frame s tx id Hex) as (Hn & Ho & Hc & Hk).
  destruct (IH (apply_tx s tx) id) as (Hn' & Ho' & Hc' & Hk'); [congruence|].
  repeat split; congruence.
Qed.

Lemma run_editor_mono txs : ∀ s id a,
  editor_at s id a = true -> editor_at (run s txs) id a = true.
Proof.
  induction txs as [|tx txs IH]; intros s id a Hed; [assumption|].
  apply (IH (apply_tx s tx)). by apply apply_tx_editor_mono.
Qed.

Lemma run_ids_prefix txs : ∀ s, _documentIds s `prefix_of` _documentIds (run s txs).
Proof.
  induction txs as [|tx txs IH]; intros s; [reflexivity|].
  etrans; [apply (apply_tx_ids_prefix s tx)|apply (IH (apply_tx s tx))].
Qed.

Lemma run_acl_mono txs : ∀ s, acl s ⊆ acl (run s txs).
Proof.
  induction txs as [|tx txs IH]; intros s; [reflexivity|].
  etrans; [apply (apply_tx_acl_mono s tx)|apply (IH (apply_tx s tx))].
Qed.

(** *** Invariants of the reachable states *)

(** The registry lists exactly the ids whose record has an owner, and no
    stored record has the zero owner. *)
Definition ledger_inv (s : Storage) : Prop :=
  (∀ id, id ∈ _documentIds s ↔ owner (document_at s id) ≠ 0) ∧
  (∀ id d, _documents s !! id = Some d -> owner d ≠ 0).

Lemma ledger_inv_initial : ledger_inv initial.
Proof.
  split.
  - intros id. unfold document_at. simpl. rewrite lookup_empty. simpl.
    split; [intros Hin; by apply not_elem_of_nil in Hin|congruence].
  - intros id d. simpl. rewrite lookup_empty. discriminate.
Qed.

Lemma ledger_inv_step s tx :
  valid_tx tx -> ledger_inv s -> ledger_inv (apply_tx s tx).
Proof.
  intros Hv [Hreg Hrec].
  destruct (apply_tx_step s tx) as [tx err Hx|e nm key proof k Hn Ho Hk Hx|e i body Ho He Hvs Hx|e i g Hg Ho Hw Hx].
  - by split.
  - unfold valid_tx in Hv. simpl in Hv. split.
    + intros id.
      rewrite !document_at_FHE_allow, document_at_set_editor, document_at_push, document_at_set_document.
      simpl _documentIds. rewrite elem_of_app, list_elem_of_singleton.
      destruct (decide (computeDocumentId nm = id)) as [<-|Hne]; simpl.
      * split; [intros _; assumption|intros _; by right].
      * rewrite Hreg. split; [intros [?|?]; [assumption|congruence]|by left].
    + intros id d. simpl. rewrite lookup_insert.
      destruct (decide (computeDocumentId nm = id)).
      * intros [= <-]. assumption.
      * apply Hrec.
  - split.
    + intros id. rewrite document_at_set_document. simpl _documentIds.
      destruct (decide (i = id)) as [->|]; [|apply Hreg].
      rewrite Hreg. simpl. reflexivity.
    + intros id d. simpl. rewrite lookup_insert.
      destruct (decide (i = id)).
      * intros [= <-]. assumption.
      * apply Hrec.
  - by split.
Qed.

Lemma ledger_inv_run txs : ∀ s,
  Forall valid_tx txs -> ledger_inv s -> ledger_inv (run s txs).
Proof.
  induction txs as [|tx txs IH]; intros s Hv Hi; [assumption|].
  apply Forall_cons in Hv as [Hv Hvs].
  apply (IH (apply_tx s tx) Hvs). by apply ledger_inv_step.
Qed.

Lemma ledger_inv_reachable s : reachable s -> ledger_inv s.
Proof.
  intros (txs & Hv & ->). apply ledger_inv_run; [assumption|apply ledger_inv_initial].
Qed.

Lemma was_granted_snoc id a txs : ∀ s tx,
  was_granted id a s (txs ++ [tx]) =
  was_granted id a s txs || grants id a (run s txs) tx.
Proof.
  induction txs as [|t txs IH]; intros s tx; simpl.
  - by rewrite orb_false_r.
  - rewrite IH. by rewrite orb_assoc.
Qed.

(** An editor flag is set only for the owner and for the accounts access was
    granted to. *)
Lemma editors_along_history txs :
  Forall valid_tx txs ->
  ∀ id a, editor_at (run initial txs) id a = true ->
    (a = owner (document_at (run initial txs) id) ∧ a ≠ 0) ∨
    was_granted id a initial txs = true.
Proof.
  induction txs as [|tx txs IH] using rev_ind; intros Hv id a.
  { unfold editor_at. simpl. rewrite lookup_empty. discriminate. }
  apply Forall_app in Hv as [Hvs Hv]. apply (proj1 (Forall_singleton _ _)) in Hv.
  specialize (IH Hvs).
  rewrite run_snoc, was_granted_snoc.
  set (s := run initial txs) in *.
  assert (Hkeep : ∀ s', owner (document_at s' id) = owner (document_at s id) ->
            editor_at s id a = true ->
            (a = owner (document_at s' id) ∧ a ≠ 0) ∨
            was_granted id a initial txs || grants id a s tx = true).
  { intros s' Hs' Hed. destruct (IH id a Hed) as [[-> ?]| ->]; [left; by rewrite Hs'|by right]. }
  destruct (apply_tx_step s tx) as [tx err Hx|e nm key proof k Hn Ho Hk Hx|e i body Ho He Hvs' Hx|e i g Hg Ho Hw Hx].
  - apply Hkeep. reflexivity.
  - rewrite !editor_at_FHE_allow, editor_at_set_editor, editor_at_push, editor_at_set_document.
    rewrite !document_at_FHE_allow, document_at_set_editor, document_at_push, document_at_set_document.
    destruct (decide ((computeDocumentId nm, msg_sender e) = (id, a))) as [[= <- <-]|Hne].
    + intros _. left. rewrite decide_True by reflexivity. split; [reflexivity|exact Hv].
    + intros Hed. destruct (IH id a Hed) as [[-> Hnz]| ->]; [|by right].
      left. destruct (decide (computeDocumentId nm = id)) as [<-|]; [contradiction|by split].
  - rewrite editor_at_set_document. apply Hkeep.
    rewrite document_at_set_document. destruct (decide (i = id)) as [->|]; reflexivity.
  - rewrite editor_at_FHE_allow, editor_at_set_editor.
    destruct (decide ((i, g) = (id, a))) as [[= <- <-]|Hne].
    + intros _. right. unfold grants. cbn [fst snd]. rewrite Hx.
      rewrite bool_decide_eq_true_2 by (split; reflexivity). apply orb_true_r.
    + apply Hkeep. reflexivity.
Qed.

(** *** The claims about documents and permissions *)

(** C1. Right after [createDocument] the document has version 0 and the
    empty body. After any history of transactions that follows, its version
    is the number of successful [updateEncryptedBody] calls on it, and its
    body is the argument of the last of them (the empty body if there was
    none). *)
Theorem C1_version_counts_successful_updates e nm key proof s id s1 log :
  createDocument e nm key proof s = Return id s1 log ->
  version (document_at s1 id) = 0 ∧
  encryptedBody (document_at s1 id) = "" ∧
  ∀ txs,
    version (document_at (run s1 txs) id) =
      Z.of_nat (length (successful_updates id s1 txs)) ∧
    encryptedBody (document_at (run s1 txs) id) =
      List.last (successful_updates id s1 txs) "".
Proof.
  intros Hc. apply createDocument_Return in Hc as (Hn & -> & Ho & k & Hk & ->).
  set (s1 := FHE_allow _ _ _).
  assert (Hd : document_at s1 (computeDocumentId nm) =
               mkDocument nm "" k (msg_sender e) (uint40 (block_timestamp e))
                 (uint40 (block_timestamp e)) 0).
  { unfold s1.
    rewrite !document_at_FHE_allow, document_at_set_editor, document_at_push, document_at_set_document.
    by rewrite decide_True. }
  rewrite Hd. split; [reflexivity|split; [reflexivity|]].
  intros txs.
  destruct (updates_along_history (computeDocumentId nm) txs s1) as [Hv Hb].
  { intros _. by rewrite Hd. }
  rewrite Hv, Hb, Hd. simpl. split; [lia|reflexivity].
Qed.

(** C2. For a non-empty name whose id is free, [createDocument] succeeds;
    a second [createDocument] with the same name, by any caller and with any
    key, reverts with [DocumentAlreadyExists(computeDocumentId(name))]; the
    storage after the reverted call is the storage before it, so the owner
    and [createdAt] are those of the first call. *)
Theorem C2_second_create_reverts e nm key proof s :
  nm ≠ "" ->
  msg_sender e ≠ 0 ->
  owner (document_at s (computeDocumentId nm)) = 0 ->
  is_Some (FHE_fromExternal key proof (msg_sender e)) ->
  ∃ s1 log,
    createDocument e nm key proof s = Return (computeDocumentId nm) s1 log ∧
    owner (document_at s1 (computeDocumentId nm)) = msg_sender e ∧
    createdAt (document_at s1 (computeDocumentId nm)) = uint40 (block_timestamp e) ∧
    ∀ e' key' proof',
      createDocument e' nm key' proof' s1 =
        Revert (DocumentAlreadyExists (computeDocumentId nm)) ∧
      apply_tx s1 (e', CreateDocument nm key' proof') = s1.
Proof.
  intros Hn Hs Ho [k Hk].
  unfold createDocument at 1.
  rewrite bool_decide_eq_false_2 by (destruct nm; [done|discriminate]).
  rewrite bool_decide_eq_false_2 by (intros Hne; by apply Hne).
  rewrite Hk. eexists _, _. split; [reflexivity|].
  set (s1 := FHE_allow _ _ _).
  assert (Hd : owner (document_at s1 (computeDocumentId nm)) = msg_sender e).
  { unfold s1.
    rewrite !document_at_FHE_allow, document_at_set_editor, document_at_push, document_at_set_document.
    by rewrite decide_True. }
  split; [exact Hd|]. split.
  { unfold s1.
    rewrite !document_at_FHE_allow, document_at_set_editor, document_at_push, document_at_set_document.
    by rewrite decide_True. }
  intros e' key' proof'.
  assert (Hr : createDocument e' nm key' proof' s1 =
               Revert (DocumentAlreadyExists (computeDocumentId nm))).
  { unfold createDocument.
    rewrite bool_decide_eq_false_2 by (destruct nm; [done|discriminate]).
    rewrite bool_decide_eq_true_2 by (rewrite Hd; exact Hs). reflexivity. }
  split; [exact Hr|]. unfold apply_tx. simpl. by rewrite Hr.
Qed.

(** C4. The guards of [grantAccess], in the order the contract checks them:
    the zero grantee is refused with [InvalidAddress]; then an id without a
    document with [DocumentNotFound]; then a caller who is not the owner with
    [NotOwner(id, caller)], whatever the editor flags are (so also when the
    caller is an editor). *)
Theorem C4_grantAccess_guards e id g s :
  (g = 0 -> grantAccess e id g s = Revert InvalidAddress) ∧
  (g ≠ 0 -> owner (document_at s id) = 0 ->
     grantAccess e id g s = Revert (DocumentNotFound id)) ∧
  (g ≠ 0 -> owner (document_at s id) ≠ 0 ->
     msg_sender e ≠ owner (document_at s id) ->
     grantAccess e id g s = Revert (NotOwner id (msg_sender e))).
Proof.
  unfold grantAccess. repeat split.
  - intros ->. reflexivity.
  - intros Hg Ho. rewrite bool_decide_eq_false_2 by assumption.
    by rewrite bool_decide_eq_true_2.
  - intros Hg Ho Hw. rewrite bool_decide_eq_false_2 by assumption.
    rewrite bool_decide_eq_false_2 by assumption.
    rewrite bool_decide_eq_true_2 by congruence. reflexivity.
Qed.

(** C8. [updateEncryptedBody] and [grantAccess] leave the name, the owner,
    [createdAt] and the key handle of every document as they were; and along
    any history of transactions an existing document keeps these four
    fields and stays in existence, every editor flag that is set stays set,
    the registry only grows at its end, and the access list only grows. *)
Theorem C8_only_body_version_and_grants_change s id :
  (∀ e i body u s' log, updateEncryptedBody e i body s = Return u s' log ->
     name (document_at s' id) = name (document_at s id) ∧
     owner (document_at s' id) = owner (document_at s id) ∧
     createdAt (document_at s' id) = createdAt (document_at s id) ∧
     encryptedKey (document_at s' id) = encryptedKey (document_at s id)) ∧
  (∀ e i g u s' log, grantAccess e i g s = Return u s' log ->
     document_at s' id = document_at s id) ∧
  (∀ txs,
     (owner (document_at s id) ≠ 0 ->
        name (document_at (run s txs) id) = name (document_at s id) ∧
        owner (document_at (run s txs) id) = owner (document_at s id) ∧
        createdAt (document_at (run s txs) id) = createdAt (document_at s id) ∧
        encryptedKey (document_at (run s txs) id) = encryptedKey (document_at s id)) ∧
     (∀ a, isEditor id a s = true -> isEditor id a (run s txs) = true) ∧
     _documentIds s `prefix_of` _documentIds (run s txs) ∧
     acl s ⊆ acl (run s txs)).
Proof.
  split; [|split].
  - intros e i body u s' log Hu.
    apply updateEncryptedBody_Return in Hu as (Ho & He & Hv & ->).
    rewrite document_at_set_document.
    destruct (decide (i = id)) as [->|]; repeat split.
  - intros e i g u s' log Hg.
    apply grantAccess_Return in Hg as (Hg & Ho & Hw & ->).
    reflexivity.
  - intros txs. split; [apply run_frame|]. split; [|split].
    + intros a. apply run_editor_mono.
    + apply run_ids_prefix.
    + apply run_acl_mono.
Qed.

(** C9. After a successful [grantAccess(id, g)], the same call by the owner
    succeeds again and returns the very storage it started from: documents,
    editor flags, registry and access list are unchanged (only the
    [AccessGranted] event is emitted again). *)
Theorem C9_grantAccess_idempotent e e' id g s u s1 log :
  grantAccess e id g s = Return u s1 log ->
  msg_sender e' = msg_sender e ->
  grantAccess e' id g s1 = Return tt s1 [AccessGranted id (msg_sender e') g].
Proof.
  intros Hg He'. apply grantAccess_Return in Hg as (Hg & Ho & Hw & ->).
  unfold grantAccess.
  rewrite document_at_FHE_allow, document_at_set_editor.
  rewrite bool_decide_eq_false_2 by assumption.
  rewrite bool_decide_eq_false_2 by assumption.
  rewrite bool_decide_eq_false_2 by (intros Hne; apply Hne; congruence).
  f_equal. unfold FHE_allow, set_editor. simpl. f_equal.
  - apply insert_insert_eq.
  - set_solver.
Qed.

(** C3 (as amended). The owner is an editor right after creation. After a
    successful [grantAccess(id, g)] the grantee is an editor, and stays one:
    after any further history, [updateEncryptedBody] by the grantee succeeds
    as long as the version counter is below the [uint32] maximum (at the
    maximum the checked increment reverts). In a state reached from
    deployment, an account that is not the owner of an existing document and
    was never granted access to it gets [NotEditor(id, caller)]. *)
Theorem C3_editors_update_below_max_version :
  (∀ e nm key proof s id s1 log,
     createDocument e nm key proof s = Return id s1 log ->
     owner (document_at s1 id) = msg_sender e ∧
     isEditor id (msg_sender e) s1 = true) ∧
  (∀ e id g s u s1 log,
     grantAccess e id g s = Return u s1 log ->
     isEditor id g s1 = true ∧
     ∀ txs e' body,
       msg_sender e' = g ->
       version (document_at (run s1 txs) id) < max_uint32 ->
       ∃ s2 log2, updateEncryptedBody e' id body (run s1 txs) = Return tt s2 log2) ∧
  (∀ txs id e body,
     Forall valid_tx txs ->
     owner (document_at (run initial txs) id) ≠ 0 ->
     msg_sender e ≠ owner (document_at (run initial txs) id) ->
     was_granted id (msg_sender e) initial txs = false ->
     updateEncryptedBody e id body (run initial txs) =
       Revert (NotEditor id (msg_sender e))).
Proof.
  split; [|split].
  - intros e nm key proof s id s1 log Hc.
    apply createDocument_Return in Hc as (Hn & -> & Ho & k & Hk & ->).
    unfold isEditor.
    rewrite !document_at_FHE_allow, document_at_set_editor, document_at_push, document_at_set_document.
    rewrite !editor_at_FHE_allow, editor_at_set_editor.
    by rewrite !decide_True.
  - intros e id g s u s1 log Hg.
    apply grantAccess_Return in Hg as (Hg & Ho & Hw & ->).
    set (s1 := FHE_allow _ _ _).
    assert (Hed : editor_at s1 id g = true).
    { unfold s1. rewrite editor_at_FHE_allow, editor_at_set_editor. by rewrite decide_True. }
    split; [exact Hed|].
    intros txs e' body He' Hv.
    assert (Ho1 : owner (document_at s1 id) ≠ 0) by exact Ho.
    destruct (run_frame txs s1 id Ho1) as (_ & Ho2 & _).
    unfold updateEncryptedBody.
    rewrite bool_decide_eq_false_2 by congruence.
    rewrite He', (run_editor_mono txs s1 id g Hed). simpl negb. cbv iota.
    rewrite bool_decide_eq_false_2 by (simpl; lia).
    eexists _, _. reflexivity.
  - intros txs id e body Hv Ho Hw Hg.
    unfold updateEncryptedBody.
    rewrite bool_decide_eq_false_2 by assumption.
    destruct (editor_at (run initial txs) id (msg_sender e)) eqn:Hed; [|reflexivity].
    destruct (editors_along_history txs Hv id (msg_sender e) Hed) as [[? _]|?]; congruence.
Qed.

(** C10 (as amended). In every state reached from deployment an id is in the
    registry exactly when its record has a non-zero owner, and no stored
    record has the zero owner. [getDocument] and [updateEncryptedBody]
    revert with [DocumentNotFound] exactly on the ids whose owner is zero;
    [grantAccess] does so for a non-zero grantee, and reverts with
    [InvalidAddress] for the zero grantee whatever the id. *)
Theorem C10_existence_is_nonzero_owner s :
  reachable s ->
  ∀ id,
    (id ∈ _documentIds s ↔ owner (document_at s id) ≠ 0) ∧
    (∀ d, _documents s !! id = Some d -> owner d ≠ 0) ∧
    (getDocument id s = Revert (DocumentNotFound id) ↔ owner (document_at s id) = 0) ∧
    (∀ e body, updateEncryptedBody e id body s = Revert (DocumentNotFound id) ↔
               owner (document_at s id) = 0) ∧
    (∀ e g, g ≠ 0 ->
       (grantAccess e id g s = Revert (DocumentNotFound id) ↔
        owner (document_at s id) = 0)) ∧
    (∀ e, grantAccess e id 0 s = Revert InvalidAddress).
Proof.
  intros Hr id. destruct (ledger_inv_reachable s Hr) as [Hreg Hrec].
  split; [apply Hreg|]. split; [apply Hrec|]. split; [|split; [|split]].
  - unfold getDocument. case_bool_decide; split; try done.
  - intros e body. unfold updateEncryptedBody.
    case_bool_decide; [done|].
    split; [|done].
    destruct (negb _); [discriminate|]. case_bool_decide; discriminate.
  - intros e g Hg. unfold grantAccess.
    rewrite bool_decide_eq_false_2 by assumption.
    case_bool_decide; [done|].
    split; [|done]. case_bool_decide; discriminate.
  - intros e. reflexivity.
Qed.

(** *** Paging over the registry *)

Lemma getDocumentIds_loop_spec fuel src offset end_ : ∀ i ids,
  0 <= offset <= i -> i <= end_ -> end_ <= Z.of_nat (length src) ->
  end_ <= max_uint256 ->
  (Z.to_nat (end_ - i) <= fuel)%nat ->
  length ids = Z.to_nat (end_ - offset) ->
  getDocumentIds_loop fuel src offset end_ i ids =
    Some (inr (take (Z.to_nat (i - offset)) ids ++
               take (Z.to_nat (end_ - i)) (drop (Z.to_nat i) src))).
Proof.
  induction fuel as [|fuel IH]; intros i ids Ho Hi He Hm Hf Hl.
  - assert (i = end_) as -> by lia.
    simpl. rewrite bool_decide_eq_false_2 by lia.
    rewrite Z.sub_diag. simpl. rewrite app_nil_r, take_ge by lia. reflexivity.
  - simpl. case_bool_decide as Hlt.
    + destruct (lookup_lt_is_Some_2 src (Z.to_nat i)) as [x Hx]; [lia|].
      rewrite Hx.
      rewrite bool_decide_eq_false_2 by lia.
      rewrite bool_decide_eq_true_2 by lia.
      rewrite bool_decide_eq_false_2 by lia.
      rewrite IH; try lia; [|by rewrite length_insert].
      do 2 f_equal.
      replace (Z.to_nat (i + 1 - offset)) with (S (Z.to_nat (i - offset))) by lia.
      rewrite (take_S_r _ _ x) by (apply list_lookup_insert_eq; lia).
      rewrite take_insert_ge by lia.
      rewrite <- app_assoc. f_equal.
      replace (Z.to_nat (end_ - i)) with (S (Z.to_nat (end_ - (i + 1)))) by lia.
      rewrite (drop_S _ x _ Hx). simpl.
      replace (Z.to_nat (i + 1)) with (S (Z.to_nat i)) by lia. reflexivity.
    + assert (i = end_) as -> by lia.
      rewrite Z.sub_diag. simpl. rewrite app_nil_r, take_ge by lia. reflexivity.
Qed.

(** As long as [offset + limit] fits in a [uint256], [getDocumentIds]
    returns the slice of the registry: [limit] ids from position [offset],
    fewer when the registry ends before. *)
Lemma getDocumentIds_slice offset limit s :
  0 <= offset -> 0 <= limit -> offset + limit <= max_uint256 ->
  getDocumentIds offset limit s =
    Some (inr (take (Z.to_nat limit) (drop (Z.to_nat offset) (_documentIds s)))).
Proof.
  intros Ho Hl Hm. unfold getDocumentIds.
  case_bool_decide as Hge.
  { rewrite drop_ge by lia. by rewrite take_nil. }
  rewrite bool_decide_eq_false_2 by lia.
  set (end_ := if bool_decide (offset + limit > _) then _ else _).
  assert (Hend : offset <= end_ ∧ end_ <= Z.of_nat (length (_documentIds s)) ∧
                 end_ <= offset + limit ∧
                 (end_ = offset + limit ∨ end_ = Z.of_nat (length (_documentIds s)))).
  { unfold end_. case_bool_decide; lia. }
  rewrite bool_decide_eq_false_2 by lia.
  rewrite getDocumentIds_loop_spec; try lia; [|by rewrite length_replicate].
  rewrite Z.sub_diag. simpl. do 2 f_equal.
  destruct Hend as (H1 & H2 & H3 & [H4|H4]).
  - f_equal. lia.
  - rewrite !take_ge; [reflexivity| |]; rewrite length_drop; lia.
Qed.

(** With a non-empty slice to return, a sum [offset + limit] that does not
    fit in a [uint256] makes [getDocumentIds] panic. *)
Lemma getDocumentIds_overflow offset limit s :
  offset < getDocumentCount s -> offset + limit > max_uint256 ->
  getDocumentIds offset limit s = Some (inl (Panic PANIC_OVERFLOW)).
Proof.
  intros Ho Hm. unfold getDocumentIds, getDocumentCount in *.
  rewrite bool_decide_eq_false_2 by lia.
  by rewrite bool_decide_eq_true_2.
Qed.

End LedgerFacts.

(** *** Evaluation on the sample environment *)

Section SampleLedger.
#[local] Existing Instance sample_externals.

Lemma one_document_created :
  run initial [(mkEnv 1 100, CreateDocument "a.txt" 7 "")] = one_document "" 0.
Proof. reflexivity. Qed.

Lemma one_document_updated body v :
  0 <= v -> v + 1 <= max_uint32 ->
  apply_tx (one_document body v) (mkEnv 1 100, UpdateEncryptedBody 1005 "x") =
  one_document "x" (v + 1).
Proof.
  intros H0 Hv. unfold apply_tx, exec, updateEncryptedBody. cbn [fst snd msg_sender].
  replace (document_at (one_document body v) 1005)
    with (mkDocument "a.txt" body 7 1 100 100 v) by reflexivity.
  replace (editor_at (one_document body v) 1005 1) with true by reflexivity.
  cbn [owner negb]. rewrite bool_decide_eq_false_2 by discriminate.
  cbn [with_encryptedBody with_updatedAt with_version version name owner encryptedKey
         createdAt updatedAt encryptedBody].
  rewrite bool_decide_eq_false_2 by lia.
  unfold set_document, one_document. cbn [_documents _editors _documentIds acl].
  f_equal; apply insert_singleton_eq.
Qed.

Lemma one_document_updates n : ∀ body v,
  0 <= v -> v + Z.of_nat (S n) <= max_uint32 ->
  run (one_document body v) (replicate (S n) (mkEnv 1 100, UpdateEncryptedBody 1005 "x")) =
  one_document "x" (v + Z.of_nat (S n)).
Proof.
  induction n as [|n IH]; intros body v H0 Hv.
  - simpl. rewrite one_document_updated by lia. reflexivity.
  - change (replicate (S (S n)) ?x) with (x :: replicate (S n) x).
    change (run ?s (?x :: ?l)) with (run (apply_tx s x) l).
    rewrite one_document_updated by lia. rewrite IH by lia. f_equal. lia.
Qed.

Lemma create_then_update_run n :
  (0 < n)%nat -> Z.of_nat n <= max_uint32 ->
  run initial (create_then_update n) = one_document "x" (Z.of_nat n).
Proof.
  intros Hn Hm. destruct n as [|n]; [lia|].
  unfold create_then_update.
  change (run initial (?x :: ?l)) with (run (run initial [x]) l).
  rewrite one_document_created, one_document_updates by lia.
  reflexivity.
Qed.

Lemma max_uint32_pos : 0 < max_uint32.
Proof. reflexivity. Qed.

(** The document at the maximal version is a state the contract can reach. *)
Lemma one_document_at_max_reachable : reachable (one_document "x" max_uint32).
Proof.
  pose proof max_uint32_pos as Hp.
  exists (create_then_update (Z.to_nat max_uint32)). split.
  - unfold create_then_update. apply Forall_cons. split; [discriminate|].
    apply Forall_replicate. discriminate.
  - rewrite create_then_update_run by lia.
    rewrite Z2Nat.id by lia. reflexivity.
Qed.

(** C3, the claim as stated fails: in the reachable state in which the
    document is at version [2^32 - 1], the owner grants access to account 2,
    account 2 is an editor, and its [updateEncryptedBody] reverts with the
    arithmetic panic. *)
Lemma C3_counterexample_update_reverts_at_max_version :
  reachable (one_document "x" max_uint32) ∧
  grantAccess (mkEnv 1 200) 1005 2 (one_document "x" max_uint32) =
    Return tt (FHE_allow 7 2 (set_editor 1005 2 true (one_document "x" max_uint32)))
      [AccessGranted 1005 1 2] ∧
  isEditor 1005 2 (FHE_allow 7 2 (set_editor 1005 2 true (one_document "x" max_uint32))) = true ∧
  updateEncryptedBody (mkEnv 2 201) 1005 "y"
    (FHE_allow 7 2 (set_editor 1005 2 true (one_document "x" max_uint32))) =
    Revert (Panic PANIC_OVERFLOW).
Proof.
  split; [apply one_document_at_max_reachable|].
  split; [reflexivity|]. split; reflexivity.
Qed.

(** C10, the claim as stated fails: at deployment the owner stored for id
    1005 is zero, and [grantAccess] on it with the zero grantee reverts with
    [InvalidAddress], not with [DocumentNotFound]. *)
Lemma C10_counterexample_zero_grantee :
  reachable initial ∧
  owner (document_at initial 1005) = 0 ∧
  grantAccess (mkEnv 1 100) 1005 0 initial = Revert InvalidAddress ∧
  grantAccess (mkEnv 1 100) 1005 0 initial ≠ Revert (DocumentNotFound 1005).
Proof.
  split; [exists []; split; [constructor|reflexivity]|].
  split; [reflexivity|]. split; [reflexivity|discriminate].
Qed.

(** C5, the code fails the claim: with two documents in the registry,
    [getDocumentIds(1, 2^256 - 1)] panics on the overflow of
    [offset + limit] instead of returning the one remaining id, which
    [getDocumentIds(1, 2^256 - 2)] does return. *)
Theorem C5_getDocumentIds_panics_on_overflowing_limit :
  getDocumentCount (run initial sample_history) = 2 ∧
  getDocumentIds 1 max_uint256 (run initial sample_history) =
    Some (inl (Panic PANIC_OVERFLOW)) ∧
  getDocumentIds 1 (max_uint256 - 1) (run initial sample_history) =
    Some (inr [1008]) ∧
  getDocumentIds 0 max_uint256 (run initial sample_history) =
    Some (inr [1005; 1008]).
Proof. repeat split; vm_compute; reflexivity. Qed.

(** The theorems at the sample history. *)

Lemma C1_witness :
  version (document_at (run initial sample_history) 1005) = 2 ∧
  encryptedBody (document_at (run initial sample_history) 1005) = "v1:EEEE:FFFF".
Proof.
  assert (Hc : createDocument (mkEnv 1 100) "a.txt" 7 "" initial =
               Return 1005 (one_document "" 0) [DocumentCreated 1005 1 "a.txt"])
    by (vm_compute; reflexivity).
  assert (Hs : run initial sample_history = run (one_document "" 0) (tail sample_history))
    by (vm_compute; reflexivity).
  destruct (C1_version_counts_successful_updates _ _ _ _ _ _ _ _ Hc) as (_ & _ & Hh).
  destruct (Hh (tail sample_history)) as [Hv Hb].
  rewrite Hs, Hv, Hb. split; vm_compute; reflexivity.
Defined.

Lemma C2_witness :
  ∃ s1 log,
    createDocument (mkEnv 1 100) "a.txt" 7 "" initial =
      Return (computeDocumentId "a.txt") s1 log ∧
    owner (document_at s1 (computeDocumentId "a.txt")) = msg_sender (mkEnv 1 100) ∧
    createdAt (document_at s1 (computeDocumentId "a.txt")) =
      uint40 (block_timestamp (mkEnv 1 100)) ∧
    ∀ e' key' proof',
      createDocument e' "a.txt" key' proof' s1 =
        Revert (DocumentAlreadyExists (computeDocumentId "a.txt")) ∧
      apply_tx s1 (e', CreateDocument "a.txt" key' proof') = s1.
Proof.
  apply (C2_second_create_reverts (mkEnv 1 100) "a.txt" 7 "" initial).
  - discriminate.
  - discriminate.
  - reflexivity.
  - exists 7. reflexivity.
Defined.

Lemma C3_witness :
  (∃ s2 log2,
     updateEncryptedBody (mkEnv 2 106) 1005 "v1:GGGG:HHHH"
       (run (run initial (take 3 sample_history)) (drop 3 sample_history)) =
       Return tt s2 log2) ∧
  updateEncryptedBody (mkEnv 3 106) 1005 "v1:GGGG:HHHH" (run initial sample_history) =
    Revert (NotEditor 1005 (msg_sender (mkEnv 3 106))).
Proof.
  destruct C3_editors_update_below_max_version as (_ & Hgrant & Hnever).
  split.
  - assert (Hg : grantAccess (mkEnv 1 102) 1005 2 (run initial (take 2 sample_history)) =
                 Return tt (run initial (take 3 sample_history)) [AccessGranted 1005 1 2])
      by (vm_compute; reflexivity).
    destruct (Hgrant _ _ _ _ _ _ _ Hg) as [_ Hupd].
    apply Hupd; [reflexivity|].
    vm_compute. reflexivity.
  - apply Hnever.
    + repeat constructor; discriminate.
    + vm_compute. discriminate.
    + vm_compute. discriminate.
    + vm_compute. reflexivity.
Defined.

Lemma C4_witness :
  isEditor 1005 2 (run initial sample_history) = true ∧
  grantAccess (mkEnv 2 106) 1005 3 (run initial sample_history) =
    Revert (NotOwner 1005 (msg_sender (mkEnv 2 106))) ∧
  grantAccess (mkEnv 2 106) 1009 3 (run initial sample_history) = Revert (DocumentNotFound 1009) ∧
  grantAccess (mkEnv 1 106) 1005 0 (run initial sample_history) = Revert InvalidAddress.
Proof.
  split; [vm_compute; reflexivity|]. split; [|split].
  - apply C4_grantAccess_guards; vm_compute; discriminate.
  - apply C4_grantAccess_guards; [discriminate|vm_compute; reflexivity].
  - apply C4_grantAccess_guards. reflexivity.
Defined.

Lemma C8_witness :
  name (document_at (run (one_document "" 0) (tail sample_history)) 1005) =
    name (document_at (one_document "" 0) 1005) ∧
  owner (document_at (run (one_document "" 0) (tail sample_history)) 1005) =
    owner (document_at (one_document "" 0) 1005) ∧
  createdAt (document_at (run (one_document "" 0) (tail sample_history)) 1005) =
    createdAt (document_at (one_document "" 0) 1005) ∧
  encryptedKey (document_at (run (one_document "" 0) (tail sample_history)) 1005) =
    encryptedKey (document_at (one_document "" 0) 1005).
Proof.
  destruct (C8_only_body_version_and_grants_change (one_document "" 0) 1005)
    as (_ & _ & Hrun).
  destruct (Hrun (tail sample_history)) as (Hdoc & _).
  apply Hdoc. vm_compute. discriminate.
Defined.

Lemma C9_witness :
  grantAccess (mkEnv 1 107) 1005 2 (run initial (take 3 sample_history)) =
    Return tt (run initial (take 3 sample_history))
      [AccessGranted 1005 (msg_sender (mkEnv 1 107)) 2].
Proof.
  apply (C9_grantAccess_idempotent (mkEnv 1 102) (mkEnv 1 107) 1005 2
           (run initial (take 2 sample_history))
           tt (run initial (take 3 sample_history)) [AccessGranted 1005 1 2]).
  - vm_compute. reflexivity.
  - reflexivity.
Defined.

Lemma C10_witness :
  (1008 ∈ _documentIds (run initial sample_history) ↔
   owner (document_at (run initial sample_history) 1008) ≠ 0) ∧
  (getDocument 1009 (run initial sample_history) = Revert (DocumentNotFound 1009) ↔
   owner (document_at (run initial sample_history) 1009) = 0).
Proof.
  assert (Hr : reachable (run initial sample_history)).
  { exists sample_history. split; [repeat constructor; discriminate|reflexivity]. }
  split.
  - apply (C10_existence_is_nonzero_owner _ Hr 1008).
  - apply (C10_existence_is_nonzero_owner _ Hr 1009).
Defined.

End SampleLedger.

(** ** Part II, continued. Theorems about the client cipher *)

Local Open Scope N_scope.

(** Arithmetic with divisions by constants. *)


Ltac Nlia := zify; Z.to_euclidean_division_equations; lia.

(** *** Bytes and UTF-8 *)

Lemma to_N_byte_of_N n : n < 256 -> Byte.to_N (byte_of_N n) = n.
Proof.
  intros Hn. unfold byte_of_N. rewrite N.mod_small by assumption.
  pose proof (Byte.to_of_N_option_map n) as Ho.
  rewrite (proj2 (N.leb_le n 255)) in Ho by lia.
  destruct (Byte.of_N n) as [b|]; simpl in Ho; [congruence|discriminate].
Qed.

Lemma byte_of_N_to_N b : byte_of_N (Byte.to_N b) = b.
Proof.
  unfold byte_of_N. pose proof (Byte.to_N_bounded b).
  rewrite N.mod_small by lia. by rewrite Byte.of_to_N.
Qed.

(** Decides the comparisons of the goal that arithmetic settles. *)
Ltac settle_comparisons :=
  repeat match goal with
  | |- context [?a <=? ?b] =>
    first [ rewrite (proj2 (N.leb_le a b)) by Nlia
          | rewrite (proj2 (N.leb_gt a b)) by Nlia ]
  | |- context [?a <? ?b] =>
    first [ rewrite (proj2 (N.ltb_lt a b)) by Nlia
          | rewrite (proj2 (N.ltb_ge a b)) by Nlia ]
  | |- context [?a =? ?b] =>
    first [ rewrite (proj2 (N.eqb_eq a b)) by Nlia
          | rewrite (proj2 (N.eqb_neq a b)) by Nlia ]
  end.


Lemma utf8_decode_from_cons st b rest :
  utf8_decode_from st (b :: rest) =
  snd (utf8_decoder_step st (Byte.to_N b))
  ++ utf8_decode_from (fst (utf8_decoder_step st (Byte.to_N b))) rest.
Proof. reflexivity. Qed.

Lemma lead_byte_ascii b :
  b <= 0x7F -> utf8_decoder_step utf8_decoder_start b = (utf8_decoder_start, [b]).
Proof.
  intros Hb. unfold utf8_decoder_step, utf8_lead_byte.
  cbn [bytes_needed utf8_decoder_start]. by settle_comparisons.
Qed.

Lemma lead_byte_two b :
  0xC2 <= b <= 0xDF ->
  utf8_decoder_step utf8_decoder_start b = (mk_utf8_decoder (b mod 32) 0 1 0x80 0xBF, []).
Proof.
  intros Hb. unfold utf8_decoder_step, utf8_lead_byte.
  cbn [bytes_needed utf8_decoder_start]. by settle_comparisons.
Qed.

Lemma lead_byte_three b :
  0xE0 <= b <= 0xEF ->
  utf8_decoder_step utf8_decoder_start b =
    (mk_utf8_decoder (b mod 16) 0 2
       (if b =? 0xE0 then 0xA0 else 0x80) (if b =? 0xED then 0x9F else 0xBF), []).
Proof.
  intros Hb. unfold utf8_decoder_step, utf8_lead_byte.
  cbn [bytes_needed utf8_decoder_start].
  rewrite (proj2 (N.eqb_eq 0 0)) by reflexivity.
  rewrite (proj2 (N.leb_gt b 0x7F)) by lia.
  rewrite (proj2 (N.leb_le 0xC2 b)) by lia.
  rewrite (proj2 (N.leb_gt b 0xDF)) by lia.
  rewrite (proj2 (N.leb_le 0xE0 b)) by lia.
  rewrite (proj2 (N.leb_le b 0xEF)) by lia.
  reflexivity.
Qed.

Lemma lead_byte_four b :
  0xF0 <= b <= 0xF4 ->
  utf8_decoder_step utf8_decoder_start b =
    (mk_utf8_decoder (b mod 8) 0 3
       (if b =? 0xF0 then 0x90 else 0x80) (if b =? 0xF4 then 0x8F else 0xBF), []).
Proof.
  intros Hb. unfold utf8_decoder_step, utf8_lead_byte.
  cbn [bytes_needed utf8_decoder_start].
  rewrite (proj2 (N.eqb_eq 0 0)) by reflexivity.
  rewrite (proj2 (N.leb_gt b 0x7F)) by lia.
  rewrite (proj2 (N.leb_le 0xC2 b)) by lia.
  rewrite (proj2 (N.leb_gt b 0xDF)) by lia.
  rewrite (proj2 (N.leb_le 0xE0 b)) by lia.
  rewrite (proj2 (N.leb_gt b 0xEF)) by lia.
  rewrite (proj2 (N.leb_le 0xF0 b)) by lia.
  rewrite (proj2 (N.leb_le b 0xF4)) by lia.
  reflexivity.
Qed.

Lemma continuation_byte_last cp seen needed lo hi b :
  needed ≠ 0 -> lo <= b <= hi -> seen + 1 = needed ->
  utf8_decoder_step (mk_utf8_decoder cp seen needed lo hi) b =
    (utf8_decoder_start, [cp * 64 + b mod 64]).
Proof.
  intros Hn Hb Hs. unfold utf8_decoder_step.
  cbn [bytes_needed lower_boundary upper_boundary code_point bytes_seen].
  rewrite (proj2 (N.eqb_neq needed 0)) by assumption.
  rewrite (proj2 (N.leb_le lo b)) by lia.
  rewrite (proj2 (N.leb_le b hi)) by lia.
  rewrite (proj2 (N.eqb_eq (seen + 1) needed)) by assumption.
  reflexivity.
Qed.

Lemma continuation_byte_more cp seen needed lo hi b :
  needed ≠ 0 -> lo <= b <= hi -> seen + 1 ≠ needed ->
  utf8_decoder_step (mk_utf8_decoder cp seen needed lo hi) b =
    (mk_utf8_decoder (cp * 64 + b mod 64) (seen + 1) needed 0x80 0xBF, []).
Proof.
  intros Hn Hb Hs. unfold utf8_decoder_step.
  cbn [bytes_needed lower_boundary upper_boundary code_point bytes_seen].
  rewrite (proj2 (N.eqb_neq needed 0)) by assumption.
  rewrite (proj2 (N.leb_le lo b)) by lia.
  rewrite (proj2 (N.leb_le b hi)) by lia.
  rewrite (proj2 (N.eqb_neq (seen + 1) needed)) by assumption.
  reflexivity.
Qed.

Lemma utf8_decode_encode_scalar cp rest :
  is_scalar_value cp ->
  utf8_decode_from utf8_decoder_start (utf8_encode_scalar cp ++ rest) =
  cp :: utf8_decode_from utf8_decoder_start rest.
Proof.
  intros [Hmax Hsur]. unfold utf8_encode_scalar.
  destruct (N.ltb_spec cp 0x80) as [H1|H1].
  { cbn [app]. rewrite utf8_decode_from_cons, to_N_byte_of_N by lia.
    rewrite lead_byte_ascii by lia. reflexivity. }
  destruct (N.ltb_spec cp 0x800) as [H2|H2].
  { cbn [app]. rewrite !utf8_decode_from_cons, !to_N_byte_of_N by Nlia.
    rewrite lead_byte_two by Nlia. cbn [fst snd app].
    rewrite continuation_byte_last by Nlia. cbn [fst snd app].
    f_equal. Nlia. }
  destruct (N.ltb_spec cp 0x10000) as [H3|H3].
  { cbn [app]. rewrite !utf8_decode_from_cons, !to_N_byte_of_N by Nlia.
    rewrite lead_byte_three by Nlia. cbn [fst snd app].
    rewrite continuation_byte_more; [|lia| |lia].
    2:{ destruct (N.eqb_spec (224 + cp / 4096) 224);
        destruct (N.eqb_spec (224 + cp / 4096) 237); Nlia. }
    cbn [fst snd app].
    rewrite continuation_byte_last by Nlia. cbn [fst snd app].
    f_equal. Nlia. }
  cbn [app]. rewrite !utf8_decode_from_cons, !to_N_byte_of_N by Nlia.
  rewrite lead_byte_four by Nlia. cbn [fst snd app].
  rewrite continuation_byte_more; [|lia| |lia].
  2:{ destruct (N.eqb_spec (240 + cp / 262144) 240);
      destruct (N.eqb_spec (240 + cp / 262144) 244); Nlia. }
  cbn [fst snd app].
  rewrite continuation_byte_more by Nlia. cbn [fst snd app].
  rewrite continuation_byte_last by Nlia. cbn [fst snd app].
  f_equal. Nlia.
Qed.

(** *** Strings, scalar values and back *)

Lemma utf8_decode_encode cps :
  Forall is_scalar_value cps ->
  utf8_decode_from utf8_decoder_start (flat_map utf8_encode_scalar cps) = cps.
Proof.
  induction 1 as [|cp cps Hcp _ IH]; [reflexivity|].
  cbn [flat_map]. by rewrite utf8_decode_encode_scalar, IH.
Qed.

(** Induction that follows [to_scalar_values]: one code unit, or a pair. *)
Lemma jsstring_pair_ind (P : list N -> Prop) :
  P [] ->
  (∀ c, P [c]) ->
  (∀ c d rest, P (d :: rest) -> P rest -> P (c :: d :: rest)) ->
  ∀ s, P s.
Proof.
  intros Hnil Hone Hcons s.
  assert (H : P s ∧ ∀ c, P (c :: s)); [|tauto].
  induction s as [|d rest [IH1 IH2]]; [by split|].
  split; [apply IH2|]. intros c. apply Hcons; [apply IH2|apply IH1].
Qed.

Lemma surrogate_tests c :
  (is_lead_surrogate c = true <-> 0xD800 <= c <= 0xDBFF) ∧
  (is_trail_surrogate c = true <-> 0xDC00 <= c <= 0xDFFF).
Proof.
  unfold is_lead_surrogate, is_trail_surrogate.
  rewrite !andb_true_iff, !N.leb_le. tauto.
Qed.

Lemma to_scalar_values_scalar s :
  Forall is_code_unit s -> Forall is_scalar_value (to_scalar_values s).
Proof.
  assert (Hrepl : is_scalar_value 0xFFFD) by (split; lia).
  induction s as [|c|c d rest IH1 IH2] using jsstring_pair_ind; intros Hs.
  - constructor.
  - apply (proj1 (Forall_singleton _ _)) in Hs. unfold is_code_unit in Hs.
    cbn [to_scalar_values].
    destruct (surrogate_tests c) as [Hl Ht].
    destruct (is_lead_surrogate c); [by apply Forall_singleton|].
    destruct (is_trail_surrogate c) eqn:Et; [by apply Forall_singleton|].
    apply Forall_singleton. split; [lia|]. intros Hr.
    assert (0xD800 <= c <= 0xDBFF ∨ 0xDC00 <= c <= 0xDFFF) as [?|?] by lia.
    + by apply Hl in H.
    + by apply Ht in H.
  - apply Forall_cons in Hs as [Hc Hs]. pose proof Hs as Hs'.
    apply Forall_cons in Hs' as [Hd Hrest]. unfold is_code_unit in Hc, Hd.
    change (to_scalar_values (c :: d :: rest)) with
      (if is_lead_surrogate c then
         if is_trail_surrogate d then
           (0x10000 + (c - 0xD800) * 0x400 + (d - 0xDC00)) :: to_scalar_values rest
         else 0xFFFD :: to_scalar_values (d :: rest)
       else if is_trail_surrogate c then 0xFFFD :: to_scalar_values (d :: rest)
       else c :: to_scalar_values (d :: rest)).
    destruct (surrogate_tests c) as [Hl Ht]. destruct (surrogate_tests d) as [_ Htd].
    destruct (is_lead_surrogate c).
    + destruct (is_trail_surrogate d).
      * constructor; [|by apply IH2].
        assert (0xD800 <= c <= 0xDBFF) by by apply Hl.
        assert (0xDC00 <= d <= 0xDFFF) by by apply Htd.
        split; lia.
      * constructor; [assumption|by apply IH1].
    + destruct (is_trail_surrogate c) eqn:Et.
      * constructor; [assumption|by apply IH1].
      * constructor; [|by apply IH1]. split; [lia|]. intros Hr.
        assert (0xD800 <= c <= 0xDBFF ∨ 0xDC00 <= c <= 0xDFFF) as [?|?] by lia.
        -- by apply Hl in H.
        -- by apply Ht in H.
Qed.

Lemma well_formed_code_units s : well_formed s = true -> Forall is_code_unit s.
Proof.
  induction s as [|c|c d rest IH1 IH2] using jsstring_pair_ind; intros Hw.
  - constructor.
  - cbn [well_formed] in Hw. destruct (is_lead_surrogate c); [discriminate|].
    apply andb_true_iff in Hw as [Hw _]. apply andb_true_iff in Hw as [_ Hw].
    apply N.ltb_lt in Hw. by repeat constructor.
  - change (well_formed (c :: d :: rest)) with
      (if is_lead_surrogate c then is_trail_surrogate d && well_formed rest
       else negb (is_trail_surrogate c) && (c <? 65536) && well_formed (d :: rest)) in Hw.
    destruct (surrogate_tests c) as [Hl _]. destruct (surrogate_tests d) as [_ Htd].
    destruct (is_lead_surrogate c).
    + apply andb_true_iff in Hw as [Hd Hw].
      assert (0xD800 <= c <= 0xDBFF) by by apply Hl.
      assert (0xDC00 <= d <= 0xDFFF) by by apply Htd.
      constructor; [unfold is_code_unit; lia|].
      constructor; [unfold is_code_unit; lia|by apply IH2].
    + apply andb_true_iff in Hw as [Hw Hr]. apply andb_true_iff in Hw as [_ Hw].
      apply N.ltb_lt in Hw. constructor; [assumption|by apply IH1].
Qed.

(** A well formed string is the UTF-16 form of its scalar values. *)
Lemma utf16_of_scalar_values s :
  well_formed s = true ->
  flat_map utf16_encode_scalar (to_scalar_values s) = s.
Proof.
  induction s as [|c|c d rest IH1 IH2] using jsstring_pair_ind; intros Hw.
  - reflexivity.
  - cbn [well_formed to_scalar_values] in *.
    destruct (is_lead_surrogate c); [discriminate|].
    apply andb_true_iff in Hw as [Hw _]. apply andb_true_iff in Hw as [Ht Hw].
    apply negb_true_iff in Ht. rewrite Ht. cbn [flat_map app].
    unfold utf16_encode_scalar. by rewrite Hw.
  - change (well_formed (c :: d :: rest)) with
      (if is_lead_surrogate c then is_trail_surrogate d && well_formed rest
       else negb (is_trail_surrogate c) && (c <? 65536) && well_formed (d :: rest)) in Hw.
    change (to_scalar_values (c :: d :: rest)) with
      (if is_lead_surrogate c then
         if is_trail_surrogate d then
           (0x10000 + (c - 0xD800) * 0x400 + (d - 0xDC00)) :: to_scalar_values rest
         else 0xFFFD :: to_scalar_values (d :: rest)
       else if is_trail_surrogate c then 0xFFFD :: to_scalar_values (d :: rest)
       else c :: to_scalar_values (d :: rest)).
    destruct (surrogate_tests c) as [Hl _]. destruct (surrogate_tests d) as [_ Htd].
    destruct (is_lead_surrogate c).
    + apply andb_true_iff in Hw as [Hd Hw]. rewrite Hd.
      assert (0xD800 <= c <= 0xDBFF) by by apply Hl.
      assert (0xDC00 <= d <= 0xDFFF) by by apply Htd.
      cbn [flat_map]. rewrite (IH2 Hw). unfold utf16_encode_scalar.
      rewrite (proj2 (N.ltb_ge _ _)) by lia. cbn [app].
      f_equal; [Nlia|]. f_equal. Nlia.
    + apply andb_true_iff in Hw as [Hw Hr]. apply andb_true_iff in Hw as [Ht Hw].
      apply negb_true_iff in Ht. rewrite Ht. cbn [flat_map]. rewrite (IH1 Hr).
      unfold utf16_encode_scalar. by rewrite Hw.
Qed.

(** The first scalar value is U+FEFF only when the first code unit is. *)
Lemma strip_BOM_to_scalar_values s :
  head s ≠ Some 0xFEFF -> strip_BOM (to_scalar_values s) = to_scalar_values s.
Proof.
  destruct s as [|c rest]; [reflexivity|]. cbn [head]. intros Hc.
  cbn [to_scalar_values].
  destruct (surrogate_tests c) as [Hl _].
  destruct (is_lead_surrogate c).
  { assert (0xD800 <= c <= 0xDBFF) by by apply Hl.
    destruct rest as [|d rest']; [reflexivity|].
    destruct (is_trail_surrogate d); cbn [strip_BOM]; [|reflexivity].
    by rewrite (proj2 (N.eqb_neq _ _)) by lia. }
  destruct (is_trail_surrogate c); cbn [strip_BOM]; [reflexivity|].
  rewrite (proj2 (N.eqb_neq _ _)); [reflexivity|congruence].
Qed.

(** What decoding the encoding of a string gives, for every string. *)
Lemma TextDecoder_decode_TextEncoder_encode s :
  Forall is_code_unit s ->
  TextDecoder_decode (TextEncoder_encode s) =
  flat_map utf16_encode_scalar (strip_BOM (to_scalar_values s)).
Proof.
  intros Hs. unfold TextDecoder_decode, TextEncoder_encode.
  by rewrite utf8_decode_encode by by apply to_scalar_values_scalar.
Qed.

(** Text without unpaired surrogates and without a leading U+FEFF comes
    back from UTF-8 as it was. *)
Lemma TextDecoder_TextEncoder_roundtrip s :
  well_formed s = true -> head s ≠ Some 0xFEFF ->
  TextDecoder_decode (TextEncoder_encode s) = s.
Proof.
  intros Hw Hb.
  rewrite TextDecoder_decode_TextEncoder_encode by by apply well_formed_code_units.
  rewrite strip_BOM_to_scalar_values by assumption.
  by apply utf16_of_scalar_values.
Qed.

(** *** Base64 *)

Lemma list_triple_ind (P : list N -> Prop) :
  P [] -> (∀ a, P [a]) -> (∀ a b, P [a; b]) ->
  (∀ a b c rest, P rest -> P (a :: b :: c :: rest)) ->
  ∀ l, P l.
Proof.
  intros H0 H1 H2 H3 l.
  assert (H : P l ∧ (∀ a, P (a :: l)) ∧ (∀ a b, P (a :: b :: l))); [|tauto].
  induction l as [|c rest (IH0 & IH1 & IH2)]; [by repeat split|].
  split; [apply IH1|]. split; [intros a; apply IH2|].
  intros a b. by apply H3.
Qed.

Lemma base64_encode_sextets l :
  base64_encode l = map base64_char (base64_sextets l) ++ base64_padding l.
Proof.
  induction l as [|a|a b|a b c rest IH] using list_triple_ind; try reflexivity.
  cbn [base64_encode base64_sextets base64_padding map app]. by rewrite IH.
Qed.

Lemma base64_padding_cases l :
  base64_padding l = [] ∨ base64_padding l = [61] ∨ base64_padding l = [61; 61].
Proof.
  induction l as [|a|a b|a b c rest IH] using list_triple_ind; cbn [base64_padding]; tauto.
Qed.

(** Takes the hypotheses [Forall P (a :: l)] apart. *)
Ltac split_Forall :=
  repeat match goal with
  | H : Forall _ (_ :: _) |- _ =>
    let Ha := fresh "Ha" in apply Forall_cons in H as [Ha H]; cbv beta in Ha
  | H : Forall _ [] |- _ => clear H
  end.

Lemma base64_sextets_bound l :
  Forall (λ a, a < 256) l -> Forall (λ x, x < 64) (base64_sextets l).
Proof.
  induction l as [|a|a b|a b c rest IH] using list_triple_ind; intros Hl;
    cbn [base64_sextets].
  - constructor.
  - split_Forall. repeat (apply Forall_cons; split; [Nlia|]). constructor.
  - split_Forall. repeat (apply Forall_cons; split; [Nlia|]). constructor.
  - apply Forall_cons in Hl as [Ha Hl]. apply Forall_cons in Hl as [Hb Hl].
    apply Forall_cons in Hl as [Hc Hl]. cbv beta in Ha, Hb, Hc.
    repeat (apply Forall_cons; split; [Nlia|]). by apply IH.
Qed.

Lemma base64_sextets_length l :
  N.of_nat (length (base64_sextets l)) mod 4 ≠ 1.
Proof.
  induction l as [|a|a b|a b c rest IH] using list_triple_ind;
    cbn [base64_sextets length]; try (intros Hx; vm_compute in Hx; discriminate).
  intros Hx. apply IH. revert Hx. generalize (length (base64_sextets rest)). intros n.
  Nlia.
Qed.

Lemma base64_encode_length l :
  N.of_nat (length (base64_encode l)) mod 4 = 0.
Proof.
  induction l as [|a|a b|a b c rest IH] using list_triple_ind;
    cbn [base64_encode length]; try reflexivity.
  revert IH. generalize (length (base64_encode rest)). intros n. Nlia.
Qed.

Lemma base64_decode_sextets l :
  Forall (λ a, a < 256) l -> base64_decode (base64_sextets l) = l.
Proof.
  induction l as [|a|a b|a b c rest IH] using list_triple_ind; intros Hl;
    cbn [base64_sextets base64_decode].
  - reflexivity.
  - split_Forall. f_equal. Nlia.
  - split_Forall. f_equal; [Nlia|]. f_equal. Nlia.
  - apply Forall_cons in Hl as [Ha Hl]. apply Forall_cons in Hl as [Hb Hl].
    apply Forall_cons in Hl as [Hc Hl]. cbv beta in Ha, Hb, Hc.
    rewrite (IH Hl). f_equal; [Nlia|]. f_equal; [Nlia|]. f_equal. Nlia.
Qed.

(** A character of the alphabet is no white space, no [=] and no [:]. *)
Lemma base64_char_class n :
  is_ascii_whitespace (base64_char n) = false ∧
  base64_char n ≠ 61 ∧ base64_char n ≠ 58.
Proof.
  unfold base64_char, is_ascii_whitespace.
  destruct (N.ltb_spec n 26); [|destruct (N.ltb_spec n 52);
    [|destruct (N.ltb_spec n 62); [|destruct (N.eqb_spec n 62)]]];
  (split; [|lia]);
  rewrite !orb_false_iff; repeat split; apply N.eqb_neq; lia.
Qed.

Lemma base64_index_char n : n < 64 -> base64_index (base64_char n) = Some n.
Proof.
  intros Hn. unfold base64_char, base64_index.
  destruct (N.ltb_spec n 26).
  { settle_comparisons. cbn [andb]. f_equal. lia. }
  destruct (N.ltb_spec n 52).
  { settle_comparisons. cbn [andb]. f_equal. lia. }
  destruct (N.ltb_spec n 62).
  { settle_comparisons. cbn [andb]. f_equal. lia. }
  destruct (N.eqb_spec n 62) as [->|]; [reflexivity|].
  assert (n = 63) as -> by lia. reflexivity.
Qed.

Lemma mapM_base64_index sx :
  Forall (λ x, x < 64) sx -> mapM base64_index (map base64_char sx) = Some sx.
Proof.
  induction 1 as [|x sx Hx _ IH]; [reflexivity|].
  cbn [map].
  change (mapM base64_index (base64_char x :: map base64_char sx)) with
    (y ← base64_index (base64_char x); k ← mapM base64_index (map base64_char sx);
     mret (y :: k)).
  rewrite base64_index_char by assumption. cbn. rewrite IH. reflexivity.
Qed.

Lemma filter_all {A} (p : A -> bool) l :
  Forall (λ x, p x = true) l -> List.filter p l = l.
Proof.
  induction 1 as [|x l Hx _ IH]; [reflexivity|].
  cbn [List.filter]. by rewrite Hx, IH.
Qed.

Lemma strip_padding_app X pad :
  Forall (λ c, c ≠ 61) X ->
  pad = [] ∨ pad = [61] ∨ pad = [61; 61] ->
  strip_padding (X ++ pad) = X.
Proof.
  intros HX Hpad. unfold strip_padding.
  assert (Hrev : Forall (λ c, c ≠ 61) (rev X)) by by apply Forall_rev.
  destruct Hpad as [->|[->| ->]].
  - rewrite app_nil_r. destruct (rev X) as [|c1 [|c2 r]] eqn:Er; [reflexivity| |].
    + apply (proj1 (Forall_singleton _ _)) in Hrev.
      by rewrite (proj2 (N.eqb_neq _ _)).
    + apply Forall_cons in Hrev as [Hc1 _]. by rewrite (proj2 (N.eqb_neq c1 61)).
  - rewrite rev_app_distr. cbn [rev app].
    destruct (rev X) as [|c2 r] eqn:Er.
    + cbn. apply (f_equal (@rev N)) in Er. by rewrite rev_involutive in Er.
    + apply Forall_cons in Hrev as [Hc2 _].
      rewrite N.eqb_refl, (proj2 (N.eqb_neq c2 61)) by assumption.
      change (rev r ++ [c2]) with (rev (c2 :: r)).
      by rewrite <- Er, rev_involutive.
  - rewrite rev_app_distr. cbn [rev app]. rewrite !N.eqb_refl. apply rev_involutive.
Qed.

Lemma atob_base64_encode l :
  Forall (λ a, a < 256) l -> atob (base64_encode l) = inr l.
Proof.
  intros Hl. unfold atob.
  assert (Hclass : Forall (λ c, is_ascii_whitespace c = false ∧ c ≠ 61)
                     (map base64_char (base64_sextets l))).
  { apply Forall_map, Forall_forall. intros x _.
    destruct (base64_char_class x) as (? & ? & _). by split. }
  rewrite filter_all.
  2:{ rewrite base64_encode_sextets. apply Forall_app. split.
      - eapply Forall_impl; [exact Hclass|]. intros c [-> _]. reflexivity.
      - destruct (base64_padding_cases l) as [->|[->| ->]]; repeat constructor. }
  rewrite base64_encode_length. cbn [N.eqb].
  rewrite base64_encode_sextets, strip_padding_app;
    [|eapply Forall_impl; [exact Hclass|]; by intros c [_ ?]
     |apply base64_padding_cases].
  rewrite length_map.
  rewrite (proj2 (N.eqb_neq _ _)) by apply base64_sextets_length.
  rewrite mapM_base64_index by by apply base64_sextets_bound.
  by rewrite base64_decode_sextets.
Qed.

Lemma base64_encode_no_colon l : Forall (λ c, c ≠ 58) (base64_encode l).
Proof.
  rewrite base64_encode_sextets. apply Forall_app. split.
  - apply Forall_map, Forall_forall. intros x _. apply base64_char_class.
  - destruct (base64_padding_cases l) as [->|[->| ->]]; repeat constructor; discriminate.
Qed.

(** *** The two helpers of [docCrypto.ts] *)

Lemma bytesToBase64_loop_spec b fuel : ∀ i binary,
  (length b - N.to_nat i <= fuel)%nat ->
  bytesToBase64_loop fuel b i binary =
    Some (binary ++ String_fromCharCode (drop (N.to_nat i) b)).
Proof.
  induction fuel as [|fuel IH]; intros i binary Hf.
  - cbn [bytesToBase64_loop]. rewrite (proj2 (N.ltb_ge _ _)) by lia.
    rewrite drop_ge by lia. by rewrite app_nil_r.
  - cbn [bytesToBase64_loop]. destruct (N.ltb_spec i (N.of_nat (length b))) as [Hlt|Hge].
    + assert (Hc : (1 <= N.to_nat chunkSize)%nat) by (unfold chunkSize; lia).
      rewrite IH by lia. f_equal. rewrite <- app_assoc. f_equal.
      unfold String_fromCharCode, subarray. rewrite <- map_app. f_equal.
      replace (N.to_nat (i + chunkSize - i)) with (N.to_nat chunkSize) by lia.
      replace (N.to_nat (i + chunkSize)) with (N.to_nat i + N.to_nat chunkSize)%nat by lia.
      rewrite <- drop_drop. apply take_drop.
    + rewrite drop_ge by lia. by rewrite app_nil_r.
Qed.

(** The loop of [bytesToBase64] ends within its fuel. *)
Lemma bytesToBase64_loop_terminates b :
  bytesToBase64_loop (length b) b 0 [] = Some (String_fromCharCode b).
Proof. rewrite bytesToBase64_loop_spec by lia. reflexivity. Qed.

Lemma String_fromCharCode_bound b : Forall (λ a, a < 256) (String_fromCharCode b).
Proof.
  apply Forall_map, Forall_forall. intros x _.
  pose proof (Byte.to_N_bounded x). lia.
Qed.

Lemma bytesToBase64_spec b :
  bytesToBase64 b = inr (base64_encode (String_fromCharCode b)).
Proof.
  unfold bytesToBase64. rewrite bytesToBase64_loop_terminates. unfold btoa.
  rewrite (proj2 (forallb_forall _ _)); [reflexivity|].
  intros x Hx. apply N.leb_le.
  pose proof (String_fromCharCode_bound b) as Hb.
  rewrite List.Forall_forall in Hb. specialize (Hb x Hx). lia.
Qed.

Lemma base64ToBytes_bytesToBase64 b :
  (let_try b64 := bytesToBase64 b in
   let_try back := base64ToBytes b64 in Resolve back) = Resolve b.
Proof.
  rewrite bytesToBase64_spec. cbn [Promise_of Promise_bind].
  unfold base64ToBytes. rewrite atob_base64_encode by apply String_fromCharCode_bound.
  cbn [Promise_of Promise_bind]. f_equal. unfold String_fromCharCode.
  rewrite map_map. rewrite <- (map_id b) at 2. apply map_ext. apply byte_of_N_to_N.
Qed.

(** *** Splitting a payload *)

Lemma split_on_no_sep sep s :
  Forall (λ c, c ≠ sep) s -> split_on sep s = [s].
Proof.
  induction 1 as [|c s Hc _ IH]; [reflexivity|].
  cbn [split_on]. by rewrite (proj2 (N.eqb_neq c sep)), IH.
Qed.

Lemma split_on_app sep a rest :
  Forall (λ c, c ≠ sep) a ->
  split_on sep (a ++ sep :: rest) = a :: split_on sep rest.
Proof.
  induction 1 as [|c a Hc _ IH].
  - cbn [app split_on]. by rewrite N.eqb_refl.
  - cbn [app split_on]. by rewrite (proj2 (N.eqb_neq c sep)), IH.
Qed.

Lemma split_on_payload_of iv ct :
  split_on 58 (payload_of iv ct) =
    [js "v1"; base64_encode (String_fromCharCode iv);
     base64_encode (String_fromCharCode ct)].
Proof.
  unfold payload_of.
  change (js "v1:" ++ ?x) with (js "v1" ++ 58 :: x).
  change (js ":" ++ ?x) with (58 :: x).
  rewrite split_on_app by (repeat constructor; discriminate).
  rewrite split_on_app by apply base64_encode_no_colon.
  rewrite split_on_no_sep by apply base64_encode_no_colon.
  reflexivity.
Qed.

(** *** Running the computations *)

Lemma settle_bind W entropy {A B} (p : Promise A) (f : A -> Promise B) :
  settle W entropy (Promise_bind p f) =
  match settle W entropy p with
  | inl e => inl e
  | inr a => settle W entropy (f a)
  end.
Proof.
  induction p as [a|e|X c k IH]; cbn [Promise_bind settle]; try reflexivity.
  destruct (platform W entropy c); [reflexivity|apply IH].
Qed.

Lemma settle_deriveAesKeyFromSecret W entropy secret :
  WebCrypto_lawful W ->
  settle W entropy (deriveAesKeyFromSecret secret) = inr (derived_key W secret).
Proof.
  intros [Hlen _]. unfold deriveAesKeyFromSecret, derived_key.
  cbn [settle platform]. rewrite Hlen. reflexivity.
Qed.

Lemma base64ToBytes_base64_encode b :
  base64ToBytes (base64_encode (String_fromCharCode b)) = inr b.
Proof.
  unfold base64ToBytes. rewrite atob_base64_encode by apply String_fromCharCode_bound.
  f_equal. unfold String_fromCharCode.
  rewrite map_map. rewrite <- (map_id b) at 2. apply map_ext. apply byte_of_N_to_N.
Qed.

(** What [encryptDocumentBody] resolves to. *)
Lemma encryptDocumentBody_settles W entropy secret plaintext :
  WebCrypto_lawful W ->
  settle W entropy (encryptDocumentBody secret plaintext) =
    inr (payload_of (take 12 (entropy ++ replicate 12 x00))
           (AES_GCM_encrypt W (derived_key W secret)
              (take 12 (entropy ++ replicate 12 x00))
              (TextEncoder_encode plaintext))).
Proof.
  intros HW. unfold encryptDocumentBody.
  rewrite settle_bind, settle_deriveAesKeyFromSecret by assumption.
  cbn [settle platform]. rewrite !bytesToBase64_spec.
  cbn [Promise_of Promise_bind settle]. reflexivity.
Qed.

Lemma payload_of_not_empty iv ct : payload_of iv ct ≠ [].
Proof. discriminate. Qed.

(** What [decryptDocumentBody] does with a payload of three parts. *)
Lemma decryptDocumentBody_three_parts W entropy secret payload p1 p2 :
  split_on 58 payload = [js "v1"; p1; p2] ->
  settle W entropy (decryptDocumentBody secret payload) =
    match settle W entropy (deriveAesKeyFromSecret secret) with
    | inl e => inl e
    | inr key =>
      match base64ToBytes p1 with
      | inl e => inl e
      | inr iv =>
        match base64ToBytes p2 with
        | inl e => inl e
        | inr ct =>
          match AES_GCM_decrypt W key iv ct with
          | Some clear => inr (TextDecoder_decode clear)
          | None => inl OperationError
          end
        end
      end
    end.
Proof.
  intros Hs. unfold decryptDocumentBody.
  rewrite bool_decide_eq_false_2 by (intros ->; discriminate Hs).
  rewrite Hs. cbn [length nth Nat.eqb negb orb].
  rewrite bool_decide_eq_true_2 by reflexivity. cbn [negb].
  rewrite settle_bind.
  destruct (settle W entropy (deriveAesKeyFromSecret secret)) as [e|key]; [reflexivity|].
  rewrite settle_bind.
  destruct (base64ToBytes p1) as [e|iv]; [reflexivity|]. cbn [Promise_of settle].
  rewrite settle_bind.
  destruct (base64ToBytes p2) as [e|ct]; [reflexivity|]. cbn [Promise_of settle platform].
  destruct (AES_GCM_decrypt W key iv ct); reflexivity.
Qed.

Lemma decryptDocumentBody_payload_of W entropy secret iv ct :
  WebCrypto_lawful W ->
  settle W entropy (decryptDocumentBody secret (payload_of iv ct)) =
    match AES_GCM_decrypt W (derived_key W secret) iv ct with
    | Some clear => inr (TextDecoder_decode clear)
    | None => inl OperationError
    end.
Proof.
  intros HW.
  rewrite (decryptDocumentBody_three_parts _ _ _ _ _ _ (split_on_payload_of iv ct)).
  rewrite settle_deriveAesKeyFromSecret by assumption.
  by rewrite !base64ToBytes_base64_encode.
Qed.

(** Decrypting what was encrypted gives the text as [TextDecoder] reads
    the bytes [TextEncoder] wrote, for every string. *)
Lemma decrypt_encrypt W entropy entropy' secret plaintext :
  WebCrypto_lawful W ->
  Forall is_code_unit plaintext ->
  ∃ payload,
    settle W entropy (encryptDocumentBody secret plaintext) = inr payload ∧
    settle W entropy' (decryptDocumentBody secret payload) =
      inr (flat_map utf16_encode_scalar (strip_BOM (to_scalar_values plaintext))).
Proof.
  intros HW Hp. eexists. split; [by apply encryptDocumentBody_settles|].
  rewrite decryptDocumentBody_payload_of by assumption.
  rewrite (AES_GCM_decrypt_encrypt W HW).
  by rewrite TextDecoder_decode_TextEncoder_encode.
Qed.

(** *** The claims about the cipher *)

(** The only exception of [base64ToBytes] is the one [atob] throws. *)
Lemma base64ToBytes_error text e :
  base64ToBytes text = inl e -> e = InvalidCharacterError.
Proof.
  unfold base64ToBytes, atob.
  destruct (_ =? 1); [congruence|]. destruct (mapM _ _); congruence.
Qed.

(** Whatever the lawful platform and the secret, a payload of the three
    parts with a part that [atob] refuses is rejected with the
    InvalidCharacterError of [atob]; AES-GCM has no say in it. *)
Lemma decryptDocumentBody_undecodable_part W entropy secret payload p1 p2 :
  WebCrypto_lawful W ->
  split_on 58 payload = [js "v1"; p1; p2] ->
  (∃ e, base64ToBytes p1 = inl e) ∨ (∃ e, base64ToBytes p2 = inl e) ->
  settle W entropy (decryptDocumentBody secret payload) = inl InvalidCharacterError.
Proof.
  intros HW Hs Hbad.
  rewrite (decryptDocumentBody_three_parts _ _ _ _ _ _ Hs).
  rewrite settle_deriveAesKeyFromSecret by assumption.
  destruct (base64ToBytes p1) as [e1|iv] eqn:E1.
  { by rewrite (base64ToBytes_error _ _ E1). }
  destruct Hbad as [[e He]|[e He]]; [discriminate He|].
  rewrite He. by rewrite (base64ToBytes_error _ _ He).
Qed.

(** C6 (as amended). On the empty payload [decryptDocumentBody] resolves to
    the empty string and makes no platform call. A non-empty payload that
    does not split into three parts at its colons, or whose first part is
    not [v1], is rejected with the format error, again without a platform
    call. When the payload has the three parts, its two base64 parts decode,
    and AES-GCM refuses the ciphertext under the derived key, the promise is
    rejected with the OperationError of the platform, which is not the
    format error. When the payload has the three parts and [atob] refuses
    the vector part or the ciphertext part, the promise is rejected with the
    InvalidCharacterError of [atob], whatever AES-GCM would answer: an error
    that is neither the format error nor the OperationError of the cipher.
    No payload that passes the format check is rejected with the format
    error; and a text is resolved only when it is the empty payload or
    AES-GCM accepted the ciphertext and the text is the decoding of what it
    returned. *)
Theorem C6_decryptDocumentBody_failures :
  (∀ secret answer,
     decryptDocumentBody secret [] = Resolve [] ∧
     calls_made answer (decryptDocumentBody secret []) = 0%nat) ∧
  (∀ secret payload answer,
     payload ≠ [] ->
     length (split_on 58 payload) ≠ 3%nat ∨ nth 0 (split_on 58 payload) [] ≠ js "v1" ->
     decryptDocumentBody secret payload = Reject Error_UnsupportedFormat ∧
     calls_made answer (decryptDocumentBody secret payload) = 0%nat) ∧
  (∀ W entropy secret payload p1 p2 iv ct,
     WebCrypto_lawful W ->
     split_on 58 payload = [js "v1"; p1; p2] ->
     base64ToBytes p1 = inr iv ->
     base64ToBytes p2 = inr ct ->
     AES_GCM_decrypt W (derived_key W secret) iv ct = None ->
     settle W entropy (decryptDocumentBody secret payload) = inl OperationError ∧
     OperationError ≠ Error_UnsupportedFormat) ∧
  (∀ W entropy secret payload p1 p2,
     WebCrypto_lawful W ->
     split_on 58 payload = [js "v1"; p1; p2] ->
     (∃ e, base64ToBytes p1 = inl e) ∨ (∃ e, base64ToBytes p2 = inl e) ->
     settle W entropy (decryptDocumentBody secret payload) = inl InvalidCharacterError ∧
     InvalidCharacterError ≠ Error_UnsupportedFormat ∧
     InvalidCharacterError ≠ OperationError) ∧
  (∀ W entropy secret payload p1 p2,
     split_on 58 payload = [js "v1"; p1; p2] ->
     settle W entropy (decryptDocumentBody secret payload) ≠ inl Error_UnsupportedFormat) ∧
  (∀ W entropy secret payload text,
     settle W entropy (decryptDocumentBody secret payload) = inr text ->
     (payload = [] ∧ text = []) ∨
     ∃ p1 p2 iv ct clear,
       split_on 58 payload = [js "v1"; p1; p2] ∧
       base64ToBytes p1 = inr iv ∧ base64ToBytes p2 = inr ct ∧
       AES_GCM_decrypt W (derived_key W secret) iv ct = Some clear ∧
       text = TextDecoder_decode clear).
Proof.
  split; [|split; [|split; [|split; [|split]]]].
  - intros secret answer. split; reflexivity.
  - intros secret payload answer Hne Hbad.
    assert (Hr : decryptDocumentBody secret payload = Reject Error_UnsupportedFormat).
    { unfold decryptDocumentBody.
      rewrite bool_decide_eq_false_2 by assumption.
      destruct Hbad as [Hlen|Htag].
      - rewrite (proj2 (Nat.eqb_neq _ _)) by assumption. reflexivity.
      - rewrite (bool_decide_eq_false_2 _ Htag). cbn [negb]. by rewrite orb_true_r. }
    by rewrite Hr.
  - intros W entropy secret payload p1 p2 iv ct HW Hs H1 H2 Hd.
    split; [|discriminate].
    rewrite (decryptDocumentBody_three_parts _ _ _ _ _ _ Hs).
    rewrite settle_deriveAesKeyFromSecret by assumption.
    by rewrite H1, H2, Hd.
  - intros W entropy secret payload p1 p2 HW Hs Hbad.
    split; [|split; discriminate].
    by apply (decryptDocumentBody_undecodable_part W entropy secret payload p1 p2).
  - intros W entropy secret payload p1 p2 Hs.
    rewrite (decryptDocumentBody_three_parts _ _ _ _ _ _ Hs).
    unfold deriveAesKeyFromSecret. cbn [settle platform].
    destruct (_ || _); [|discriminate]. cbn [settle].
    destruct (base64ToBytes p1) as [e1|b1] eqn:E1;
      [apply base64ToBytes_error in E1 as ->; discriminate|].
    destruct (base64ToBytes p2) as [e2|b2] eqn:E2;
      [apply base64ToBytes_error in E2 as ->; discriminate|].
    destruct (AES_GCM_decrypt _ _ _ _); discriminate.
  - intros W entropy secret payload text Hd.
    destruct (decide (payload = [])) as [->|Hne].
    { left. split; [reflexivity|]. cbn in Hd. congruence. }
    right.
    destruct (decide (length (split_on 58 payload) = 3%nat)) as [Hlen|Hlen].
    2:{ unfold decryptDocumentBody in Hd.
        rewrite bool_decide_eq_false_2 in Hd by assumption.
        rewrite (proj2 (Nat.eqb_neq _ _)) in Hd by assumption. discriminate. }
    destruct (split_on 58 payload) as [|p0 [|p1 [|p2 [|? ?]]]] eqn:Hs; try discriminate.
    destruct (decide (p0 = js "v1")) as [->|Htag].
    2:{ unfold decryptDocumentBody in Hd.
        rewrite bool_decide_eq_false_2 in Hd by assumption.
        rewrite Hs in Hd. cbn [length nth Nat.eqb negb orb] in Hd.
        rewrite (bool_decide_eq_false_2 _ Htag) in Hd. discriminate. }
    rewrite (decryptDocumentBody_three_parts _ _ _ _ _ _ Hs) in Hd.
    unfold deriveAesKeyFromSecret in Hd. cbn [settle platform] in Hd.
    destruct (_ || _); [|discriminate]. cbn [settle] in Hd.
    destruct (base64ToBytes p1) as [|iv] eqn:E1; [discriminate|].
    destruct (base64ToBytes p2) as [|ct] eqn:E2; [discriminate|].
    fold (derived_key W secret) in Hd.
    destruct (AES_GCM_decrypt W (derived_key W secret) iv ct) as [clear|] eqn:Ed;
      [|discriminate].
    exists p1, p2, iv, ct, clear. repeat split; congruence.
Qed.

(** C7 (as amended). On a platform whose AES-GCM decrypts what it
    encrypted, for every secret, every random vector, and every plaintext
    that has no unpaired surrogate and does not start with U+FEFF,
    [encryptDocumentBody] resolves to a payload on which
    [decryptDocumentBody] with the same secret resolves to the plaintext. *)
Theorem C7_decrypt_encrypt_roundtrip W entropy entropy' secret plaintext :
  WebCrypto_lawful W ->
  well_formed plaintext = true ->
  head plaintext ≠ Some 0xFEFF ->
  ∃ payload,
    settle W entropy (encryptDocumentBody secret plaintext) = inr payload ∧
    settle W entropy' (decryptDocumentBody secret payload) = inr plaintext.
Proof.
  intros HW Hw Hb.
  destruct (decrypt_encrypt W entropy entropy' secret plaintext HW
              (well_formed_code_units _ Hw)) as (payload & He & Hd).
  exists payload. split; [assumption|].
  rewrite Hd, strip_BOM_to_scalar_values by assumption.
  by rewrite utf16_of_scalar_values.
Qed.

(** *** Evaluation on the sample platform *)

Lemma sample_crypto_lawful : WebCrypto_lawful sample_crypto.
Proof.
  split.
  - intros data. cbn [SHA256 sample_crypto].
    rewrite length_take, length_app, length_replicate. lia.
  - intros key iv data. cbn [AES_GCM_encrypt AES_GCM_decrypt sample_crypto].
    assert (Ht : length (sample_tag key iv) = 16%nat).
    { unfold sample_tag. rewrite length_take, !length_app, length_replicate. lia. }
    rewrite length_app, Ht.
    replace (length data + 16 - 16)%nat with (length data) by lia.
    rewrite drop_app_length, take_app_length.
    rewrite bool_decide_eq_true_2; [reflexivity|]. split; [reflexivity|lia].
Qed.

(** Whatever the lawful platform, a plaintext that starts with U+FEFF comes
    back without it. *)
Lemma decrypt_encrypt_drops_byte_order_mark W entropy entropy' secret rest :
  WebCrypto_lawful W ->
  well_formed rest = true ->
  ∃ payload,
    settle W entropy (encryptDocumentBody secret (0xFEFF :: rest)) = inr payload ∧
    settle W entropy' (decryptDocumentBody secret payload) = inr rest.
Proof.
  intros HW Hw.
  assert (Hu : Forall is_code_unit (0xFEFF :: rest)).
  { constructor; [unfold is_code_unit; lia|by apply well_formed_code_units]. }
  destruct (decrypt_encrypt W entropy entropy' secret _ HW Hu) as (payload & He & Hd).
  exists payload. split; [assumption|]. rewrite Hd.
  change (to_scalar_values (0xFEFF :: rest)) with (0xFEFF :: to_scalar_values rest).
  cbn [strip_BOM]. rewrite N.eqb_refl. by rewrite utf16_of_scalar_values.
Qed.

(** C7, the claim as stated fails: on the sample platform (which keeps the
    laws) the plaintext U+FEFF [h] [i], which has no unpaired surrogate, is
    encrypted to a payload that decrypts to [h] [i]; and the plaintext made
    of the one unpaired surrogate U+D800 comes back as U+FFFD. *)
Lemma C7_counterexample_byte_order_mark :
  WebCrypto_lawful sample_crypto ∧
  well_formed [0xFEFF; 104; 105] = true ∧
  settle sample_crypto sample_entropy (encryptDocumentBody 1234567890 [0xFEFF; 104; 105]) =
    inr (js "v1:AQIDBAUGBwgJCgsM:77u/aGkxMjM0NTY3ODkwAAAAAAAA") ∧
  settle sample_crypto sample_entropy
    (decryptDocumentBody 1234567890 (js "v1:AQIDBAUGBwgJCgsM:77u/aGkxMjM0NTY3ODkwAAAAAAAA")) =
    inr [104; 105] ∧
  settle sample_crypto sample_entropy (encryptDocumentBody 1234567890 [0xD800]) =
    inr (js "v1:AQIDBAUGBwgJCgsM:77+9MTIzNDU2Nzg5MAAAAAAAAA==") ∧
  settle sample_crypto sample_entropy
    (decryptDocumentBody 1234567890 (js "v1:AQIDBAUGBwgJCgsM:77+9MTIzNDU2Nzg5MAAAAAAAAA==")) =
    inr [0xFFFD].
Proof.
  split; [apply sample_crypto_lawful|].
  repeat split; vm_compute; reflexivity.
Qed.

(** C6, the claim as stated fails: on the sample platform (which keeps the
    laws) the text [hi] is encrypted under the secret 1234567890 to a
    payload of 44 characters. Cut to its first 41 characters, and decrypted
    with the same secret, the payload is rejected with the
    InvalidCharacterError of [atob], not with the OperationError of the
    cipher; so is the whole payload with one character of the ciphertext
    part replaced by [*]. Cut to its first 42 characters it still decodes,
    and it is AES-GCM that refuses it. *)
Lemma C6_counterexample_truncated_payload :
  WebCrypto_lawful sample_crypto ∧
  settle sample_crypto sample_entropy (encryptDocumentBody 1234567890 (js "hi")) =
    inr (js "v1:AQIDBAUGBwgJCgsM:aGkxMjM0NTY3ODkwAAAAAAAA") ∧
  take 41 (js "v1:AQIDBAUGBwgJCgsM:aGkxMjM0NTY3ODkwAAAAAAAA") =
    js "v1:AQIDBAUGBwgJCgsM:aGkxMjM0NTY3ODkwAAAAA" ∧
  settle sample_crypto sample_entropy
    (decryptDocumentBody 1234567890 (js "v1:AQIDBAUGBwgJCgsM:aGkxMjM0NTY3ODkwAAAAA")) =
    inl InvalidCharacterError ∧
  settle sample_crypto sample_entropy
    (decryptDocumentBody 1234567890 (js "v1:AQIDBAUGBwgJCgsM:aGkx*jM0NTY3ODkwAAAAAAAA")) =
    inl InvalidCharacterError ∧
  settle sample_crypto sample_entropy
    (decryptDocumentBody 1234567890 (js "v1:AQIDBAUGBwgJCgsM:aGkxMjM0NTY3ODkwAAAAAA")) =
    inl OperationError ∧
  InvalidCharacterError ≠ OperationError.
Proof.
  split; [apply sample_crypto_lawful|].
  repeat split; try discriminate; vm_compute; reflexivity.
Qed.

Lemma C6_witness :
  settle sample_crypto sample_entropy
    (decryptDocumentBody 1234567891 (js "v1:AQIDBAUGBwgJCgsM:aGkxMjM0NTY3ODkwAAAAAAAA")) =
    inl OperationError ∧
  decryptDocumentBody 1234567890 (js "v2:AQIDBAUGBwgJCgsM:aGkxMjM0NTY3ODkwAAAAAAAA") =
    Reject Error_UnsupportedFormat ∧
  decryptDocumentBody 1234567890 (js "v1:AQIDBAUGBwgJCgsM") =
    Reject Error_UnsupportedFormat ∧
  settle sample_crypto sample_entropy
    (decryptDocumentBody 1234567890 (js "v1:AQIDBAUGBwgJCgsM:aGkxMjM0NTY3ODkwAAAAA")) =
    inl InvalidCharacterError.
Proof.
  destruct C6_decryptDocumentBody_failures as (_ & Hformat & Hcipher & Hatob & _).
  split; [|split; [|split]].
  - refine (proj1 (Hcipher sample_crypto sample_entropy 1234567891%Z
             (js "v1:AQIDBAUGBwgJCgsM:aGkxMjM0NTY3ODkwAAAAAAAA")
             (js "AQIDBAUGBwgJCgsM") (js "aGkxMjM0NTY3ODkwAAAAAAAA")
             (take 12 (sample_entropy ++ replicate 12 x00))
             (AES_GCM_encrypt sample_crypto (derived_key sample_crypto 1234567890)
                (take 12 (sample_entropy ++ replicate 12 x00))
                (TextEncoder_encode (js "hi")))
             sample_crypto_lawful _ _ _ _)); vm_compute; reflexivity.
  - refine (proj1 (Hformat 1234567890%Z
             (js "v2:AQIDBAUGBwgJCgsM:aGkxMjM0NTY3ODkwAAAAAAAA") (fun _ _ => None) _ _)).
    + discriminate.
    + right. vm_compute. discriminate.
  - refine (proj1 (Hformat 1234567890%Z (js "v1:AQIDBAUGBwgJCgsM") (fun _ _ => None) _ _)).
    + discriminate.
    + left. vm_compute. discriminate.
  - refine (proj1 (Hatob sample_crypto sample_entropy 1234567890%Z
             (js "v1:AQIDBAUGBwgJCgsM:aGkxMjM0NTY3ODkwAAAAA")
             (js "AQIDBAUGBwgJCgsM") (js "aGkxMjM0NTY3ODkwAAAAA")
             sample_crypto_lawful _ _)).
    + vm_compute. reflexivity.
    + right. exists InvalidCharacterError. vm_compute. reflexivity.
Defined.

Lemma C7_witness :
  ∃ payload,
    settle sample_crypto sample_entropy
      (encryptDocumentBody 1234567890 [0xD83D; 0xDE00; 0xE9; 0x4E2D; 104; 105]) =
      inr payload ∧
    settle sample_crypto []
      (decryptDocumentBody 1234567890 payload) =
      inr [0xD83D; 0xDE00; 0xE9; 0x4E2D; 104; 105].
Proof.
  apply (C7_decrypt_encrypt_roundtrip sample_crypto sample_entropy [] 1234567890
           [0xD83D; 0xDE00; 0xE9; 0x4E2D; 104; 105]).
  - apply sample_crypto_lawful.
  - vm_compute. reflexivity.
  - discriminate.
Defined.

Local Close Scope N_scope.

(** ** Part III. Further properties of the ledger *)

Section LedgerMore.
Context `{Externals}.

(** *** More invariants of the reachable states *)

(** Stored records carry the name their id was computed from, every editor
    flag belongs to an existing document, the owner of a document is one of
    its editors, every editor is on the access list of the key handle (and
    so is the contract), and the stored numbers fit their Solidity types. *)
Record ledger_inv_more (s : Storage) : Prop := {
  inv_registry_NoDup : NoDup (_documentIds s);
  inv_name : ∀ id d, _documents s !! id = Some d ->
    name d ≠ "" ∧ computeDocumentId (name d) = id;
  inv_editor_exists : ∀ id a, editor_at s id a = true ->
    owner (document_at s id) ≠ 0;
  inv_owner_editor : ∀ id, owner (document_at s id) ≠ 0 ->
    editor_at s id (owner (document_at s id)) = true;
  inv_editor_acl : ∀ id a, editor_at s id a = true ->
    (encryptedKey (document_at s id), a) ∈ acl s;
  inv_this_acl : ∀ id, owner (document_at s id) ≠ 0 ->
    (encryptedKey (document_at s id), this) ∈ acl s;
  inv_ranges : ∀ id d, _documents s !! id = Some d ->
    0 <= version d <= max_uint32 ∧
    0 <= createdAt d < 2 ^ 40 ∧ 0 <= updatedAt d < 2 ^ 40
}.

Lemma document_at_stored s id :
  owner (document_at s id) ≠ 0 -> _documents s !! id = Some (document_at s id).
Proof.
  unfold document_at. destruct (_documents s !! id); [reflexivity|].
  intros Hn. by contradiction Hn.
Qed.

Lemma uint40_range x : 0 <= uint40 x < 2 ^ 40.
Proof. unfold uint40. apply Z.mod_pos_bound. reflexivity. Qed.

Lemma ledger_inv_more_initial : ledger_inv_more initial.
Proof.
  split; simpl.
  - constructor.
  - intros id d. rewrite lookup_empty. discriminate.
  - intros id a. unfold editor_at. simpl. rewrite lookup_empty. discriminate.
  - intros id. unfold document_at. simpl. rewrite lookup_empty. simpl. congruence.
  - intros id a. unfold editor_at. simpl. rewrite lookup_empty. discriminate.
  - intros id. unfold document_at. simpl. rewrite lookup_empty. simpl. congruence.
  - intros id d. rewrite lookup_empty. discriminate.
Qed.

Lemma ledger_inv_more_step s tx :
  valid_tx tx -> ledger_inv s -> ledger_inv_more s -> ledger_inv_more (apply_tx s tx).
Proof.
  intros Hv [Hreg Hrec] [Hnd Hname Hex Hown Hacl Hthis Hrange].
  destruct (apply_tx_step s tx) as [tx err Hx|e nm key proof k Hn Ho Hk Hx|e i body Ho He Hvs Hx|e i g Hg Ho Hw Hx].
  - by split.
  - unfold valid_tx in Hv. simpl in Hv.
    set (cid := computeDocumentId nm) in *.
    split.
    + simpl. apply NoDup_app. split; [assumption|]. split; [|apply NoDup_singleton].
      intros x Hx1 Hx2. apply list_elem_of_singleton in Hx2 as ->.
      apply Hreg in Hx1. contradiction.
    + intros id d. simpl. rewrite lookup_insert.
      destruct (decide (cid = id)) as [<-|].
      * intros [= <-]. simpl. by split.
      * apply Hname.
    + intros id a.
      rewrite !editor_at_FHE_allow, editor_at_set_editor, editor_at_push, editor_at_set_document.
      rewrite !document_at_FHE_allow, document_at_set_editor, document_at_push, document_at_set_document.
      destruct (decide ((cid, msg_sender e) = (id, a))) as [[= <- <-]|Hne].
      * intros _. by rewrite decide_True.
      * intros Hed. pose proof (Hex id a Hed) as Hid.
        destruct (decide (cid = id)) as [<-|]; [contradiction|assumption].
    + intros id.
      rewrite !editor_at_FHE_allow, editor_at_set_editor, editor_at_push, editor_at_set_document.
      rewrite !document_at_FHE_allow, document_at_set_editor, document_at_push, document_at_set_document.
      destruct (decide (cid = id)) as [<-|Hne]; simpl.
      * intros _. by rewrite decide_True.
      * intros Hid. rewrite decide_False by congruence. by apply Hown.
    + intros id a.
      rewrite !editor_at_FHE_allow, editor_at_set_editor, editor_at_push, editor_at_set_document.
      rewrite !document_at_FHE_allow, document_at_set_editor, document_at_push, document_at_set_document.
      simpl acl.
      destruct (decide ((cid, msg_sender e) = (id, a))) as [[= <- <-]|Hne].
      * intros _. rewrite decide_True by reflexivity. simpl. set_solver.
      * intros Hed. pose proof (Hex id a Hed) as Hid.
        destruct (decide (cid = id)) as [<-|]; [contradiction|].
        pose proof (Hacl id a Hed). set_solver.
    + intros id.
      rewrite !document_at_FHE_allow, document_at_set_editor, document_at_push, document_at_set_document.
      simpl acl.
      destruct (decide (cid = id)) as [<-|Hne]; simpl.
      * intros _. set_solver.
      * intros Hid. pose proof (Hthis id Hid). set_solver.
    + intros id d. simpl. rewrite lookup_insert.
      destruct (decide (cid = id)) as [<-|].
      * intros [= <-]. simpl. pose proof (uint40_range (block_timestamp e)).
        unfold max_uint32. lia.
      * apply Hrange.
  - pose proof (document_at_stored s i Ho) as Hst.
    split.
    + assumption.
    + intros id d. simpl. rewrite lookup_insert.
      destruct (decide (i = id)) as [<-|]; [|apply Hname].
      intros [= <-]. simpl. by apply (Hname i).
    + intros id a. rewrite editor_at_set_document, document_at_set_document.
      intros Hed. destruct (decide (i = id)) as [<-|]; [assumption|by apply (Hex id a)].
    + intros id. rewrite editor_at_set_document, document_at_set_document.
      destruct (decide (i = id)) as [<-|]; simpl; apply Hown.
    + intros id a. rewrite editor_at_set_document, document_at_set_document.
      destruct (decide (i = id)) as [<-|]; simpl; apply Hacl.
    + intros id. rewrite document_at_set_document.
      destruct (decide (i = id)) as [<-|]; simpl; apply Hthis.
    + intros id d. simpl. rewrite lookup_insert.
      destruct (decide (i = id)) as [<-|]; [|apply Hrange].
      intros [= <-]. simpl. pose proof (uint40_range (block_timestamp e)).
      destruct (Hrange i _ Hst) as (Hv1 & Hc1 & _). lia.
  - split; try assumption.
    + intros id a. rewrite editor_at_FHE_allow, editor_at_set_editor,
        document_at_FHE_allow, document_at_set_editor.
      destruct (decide ((i, g) = (id, a))) as [[= <- <-]|]; [by intros _|apply Hex].
    + intros id Hid. rewrite editor_at_FHE_allow, editor_at_set_editor,
        document_at_FHE_allow, document_at_set_editor.
      rewrite document_at_FHE_allow, document_at_set_editor in Hid.
      destruct (decide _); [reflexivity|by apply Hown].
    + intros id a. rewrite editor_at_FHE_allow, editor_at_set_editor,
        document_at_FHE_allow, document_at_set_editor. simpl acl.
      destruct (decide ((i, g) = (id, a))) as [[= <- <-]|].
      * intros _. set_solver.
      * intros Hed. pose proof (Hacl id a Hed). set_solver.
    + intros id Hid. rewrite document_at_FHE_allow, document_at_set_editor in *.
      simpl acl. pose proof (Hthis id Hid). set_solver.
Qed.

Lemma ledger_inv_more_run txs : ∀ s,
  Forall valid_tx txs -> ledger_inv s -> ledger_inv_more s ->
  ledger_inv_more (run s txs).
Proof.
  induction txs as [|tx txs IH]; intros s Hv Hi Hm; [assumption|].
  apply Forall_cons in Hv as [Hv Hvs].
  apply (IH (apply_tx s tx) Hvs); [by apply ledger_inv_step|by apply ledger_inv_more_step].
Qed.

Lemma ledger_inv_more_reachable s : reachable s -> ledger_inv_more s.
Proof.
  intros (txs & Hv & ->).
  apply ledger_inv_more_run;
    [assumption|apply ledger_inv_initial|apply ledger_inv_more_initial].
Qed.

(** *** Statements *)

(** X1. In every state reached from deployment the registry lists each
    document once: it has no duplicates, and [getDocumentCount] is the
    number of stored document records. *)
Theorem X1_registry_lists_each_document_once s :
  reachable s ->
  NoDup (_documentIds s) ∧
  getDocumentCount s = Z.of_nat (size (_documents s)) ∧
  ∀ id, id ∈ _documentIds s ↔ is_Some (_documents s !! id).
Proof.
  intros Hr. destruct (ledger_inv_reachable s Hr) as [Hreg Hrec].
  destruct (ledger_inv_more_reachable s Hr) as [Hnd _ _ _ _ _ _].
  assert (Hin : ∀ id, id ∈ _documentIds s ↔ is_Some (_documents s !! id)).
  { intros id. rewrite Hreg. split.
    - intros Ho. rewrite (document_at_stored s id Ho). by eexists.
    - intros [d Hd]. unfold document_at. rewrite Hd. simpl. by apply (Hrec id). }
  split; [assumption|]. split; [|assumption].
  unfold getDocumentCount. f_equal.
  rewrite <- size_dom, <- (size_list_to_set (C := gset Z) (_documentIds s)) by assumption.
  f_equal. apply set_eq. intros id.
  rewrite elem_of_list_to_set, elem_of_dom. apply Hin.
Qed.

(** X2. In every state reached from deployment an existing document has a
    non-empty name, and its id is [computeDocumentId] of that name. *)
Theorem X2_document_id_is_hash_of_stored_name s id :
  reachable s ->
  owner (document_at s id) ≠ 0 ->
  name (document_at s id) ≠ "" ∧
  computeDocumentId (name (document_at s id)) = id.
Proof.
  intros Hr Ho. destruct (ledger_inv_more_reachable s Hr) as [_ Hname _ _ _ _ _].
  apply Hname. by apply document_at_stored.
Qed.

(** X3. In every state reached from deployment, whoever [isEditor] accepts
    for a document is on the access list of the document's key handle, and
    so is the contract itself: editors can always ask for the decryption of
    the secret. *)
Theorem X3_editors_are_allowed_on_the_key s id a :
  reachable s ->
  isEditor id a s = true ->
  (encryptedKey (document_at s id), a) ∈ acl s ∧
  (encryptedKey (document_at s id), this) ∈ acl s.
Proof.
  intros Hr Hed. destruct (ledger_inv_more_reachable s Hr) as [_ _ Hex _ Hacl Hthis _].
  split; [by apply Hacl|]. apply Hthis. by apply (Hex id a).
Qed.

(** X4. In every state reached from deployment [isEditor] answers no for
    every account on an id without a document, and yes for the owner of an
    existing document. *)
Theorem X4_isEditor_false_without_document_true_for_owner s id :
  reachable s ->
  (owner (document_at s id) = 0 -> ∀ a, isEditor id a s = false) ∧
  (owner (document_at s id) ≠ 0 -> isEditor id (owner (document_at s id)) s = true).
Proof.
  intros Hr. destruct (ledger_inv_more_reachable s Hr) as [_ _ Hex Hown _ _ _].
  split.
  - intros Ho a. unfold isEditor.
    destruct (editor_at s id a) eqn:Hed; [|reflexivity].
    by apply Hex in Hed.
  - apply Hown.
Qed.

(** X7. In every state reached from deployment the numbers of a record fit
    their Solidity types: the version is a [uint32], the two timestamps are
    [uint40]s, whatever the block timestamps were. *)
Theorem X7_stored_numbers_fit_their_types s id :
  reachable s ->
  0 <= version (document_at s id) <= max_uint32 ∧
  0 <= createdAt (document_at s id) < 2 ^ 40 ∧
  0 <= updatedAt (document_at s id) < 2 ^ 40.
Proof.
  intros Hr. destruct (ledger_inv_more_reachable s Hr) as [_ _ _ _ _ _ Hrange].
  unfold document_at. destruct (_documents s !! id) as [d|] eqn:Hd.
  - by apply (Hrange id).
  - simpl. unfold max_uint32. lia.
Qed.

(** X8. From any state in which the document exists, whatever transactions
    follow: the version grows by the number of successful
    [updateEncryptedBody] calls on the id (so it never decreases), and the
    body is the argument of the last of them, or the old body when there
    was none. *)
Theorem X8_version_and_body_follow_updates s id txs :
  owner (document_at s id) ≠ 0 ->
  version (document_at (run s txs) id) =
    version (document_at s id) + Z.of_nat (length (successful_updates id s txs)) ∧
  version (document_at s id) <= version (document_at (run s txs) id) ∧
  encryptedBody (document_at (run s txs) id) =
    List.last (successful_updates id s txs) (encryptedBody (document_at s id)).
Proof.
  intros Ho.
  destruct (updates_along_history id txs s) as [Hv Hb].
  { intros Hz. contradiction. }
  split; [assumption|]. split; [lia|assumption].
Qed.

(** X9. [createDocument] succeeds exactly when the name is not empty, the
    id of the name has no document, and the encrypted input verifies. It
    then returns that id, appends it to the registry (the count grows by
    one), makes the caller owner and editor, and leaves the records and the
    editor flags of every other id as they were. *)
Theorem X9_createDocument_outcome e nm key proof s :
  ((∃ id s' log, createDocument e nm key proof s = Return id s' log) ↔
   nm ≠ "" ∧ owner (document_at s (computeDocumentId nm)) = 0 ∧
   is_Some (FHE_fromExternal key proof (msg_sender e))) ∧
  (∀ id s' log, createDocument e nm key proof s = Return id s' log ->
     id = computeDocumentId nm ∧
     _documentIds s' = _documentIds s ++ [id] ∧
     getDocumentCount s' = getDocumentCount s + 1 ∧
     log = [DocumentCreated id (msg_sender e) nm] ∧
     owner (document_at s' id) = msg_sender e ∧
     name (document_at s' id) = nm ∧
     (∀ id', id' ≠ id -> document_at s' id' = document_at s id') ∧
     (∀ id' a, (id', a) ≠ (id, msg_sender e) -> isEditor id' a s' = isEditor id' a s)).
Proof.
  split.
  - split.
    + intros (id & s' & log & Hc).
      apply createDocument_Return in Hc as (Hn & -> & Ho & k & Hk & _).
      repeat split; try assumption. by exists k.
    + intros (Hn & Ho & [k Hk]). unfold createDocument.
      rewrite bool_decide_eq_false_2 by (destruct nm; [done|discriminate]).
      rewrite bool_decide_eq_false_2 by (intros Hne; by apply Hne).
      rewrite Hk. by eexists _, _, _.
  - intros id s' log Hc. pose proof Hc as Hc'.
    apply createDocument_Return in Hc as (Hn & -> & Ho & k & Hk & ->).
    split; [reflexivity|]. split; [reflexivity|]. split.
    { unfold getDocumentCount. simpl. rewrite length_app. simpl. lia. }
    split.
    { unfold createDocument in Hc'.
      rewrite bool_decide_eq_false_2 in Hc' by (destruct nm; [done|discriminate]).
      rewrite bool_decide_eq_false_2 in Hc' by (intros Hne; by apply Hne).
      rewrite Hk in Hc'. by injection Hc' as <-. }
    rewrite !document_at_FHE_allow, document_at_set_editor, document_at_push,
      document_at_set_document, decide_True by reflexivity.
    split; [reflexivity|]. split; [reflexivity|]. split.
    + intros id' Hne.
      rewrite !document_at_FHE_allow, document_at_set_editor, document_at_push,
        document_at_set_document. by rewrite decide_False.
    + intros id' a Hne. unfold isEditor.
      rewrite !editor_at_FHE_allow, editor_at_set_editor, editor_at_push,
        editor_at_set_document. by rewrite decide_False.
Qed.

(** X10. An editor flag goes from unset to set in one transaction only
    through [grantAccess] for that very account sent by the owner of the
    document, or through the [createDocument] that creates the document,
    for its caller. *)
Theorem X10_only_owner_or_creation_adds_an_editor s tx id a :
  isEditor id a s = false ->
  isEditor id a (apply_tx s tx) = true ->
  (tx.2 = GrantAccess id a ∧ a ≠ 0 ∧
   owner (document_at s id) ≠ 0 ∧ msg_sender tx.1 = owner (document_at s id)) ∨
  (∃ nm key proof, tx.2 = CreateDocument nm key proof ∧
   computeDocumentId nm = id ∧ msg_sender tx.1 = a ∧
   owner (document_at s id) = 0).
Proof.
  unfold isEditor. intros H0 H1.
  destruct (apply_tx_step s tx) as [tx err Hx|e nm key proof k Hn Ho Hk Hx|e i body Ho He Hvs Hx|e i g Hg Ho Hw Hx].
  - congruence.
  - rewrite !editor_at_FHE_allow, editor_at_set_editor, editor_at_push,
      editor_at_set_document in H1.
    destruct (decide _) as [[= <- <-]|]; [|congruence].
    right. by exists nm, key, proof.
  - rewrite editor_at_set_document in H1. congruence.
  - rewrite editor_at_FHE_allow, editor_at_set_editor in H1.
    destruct (decide _) as [[= <- <-]|]; [|congruence].
    left. simpl. by repeat split.
Qed.

(** X11. The record of an existing document changes in one transaction
    only through [updateEncryptedBody] on its id sent by one of its
    editors; the change is the new body, the new [updatedAt] and the
    version plus one. *)
Theorem X11_only_an_editor_changes_a_document s tx id :
  owner (document_at s id) ≠ 0 ->
  document_at (apply_tx s tx) id ≠ document_at s id ->
  ∃ body, tx.2 = UpdateEncryptedBody id body ∧
    isEditor id (msg_sender tx.1) s = true ∧
    document_at (apply_tx s tx) id =
      mkDocument (name (document_at s id)) body (encryptedKey (document_at s id))
        (owner (document_at s id)) (createdAt (document_at s id))
        (uint40 (block_timestamp tx.1)) (version (document_at s id) + 1).
Proof.
  intros Hex Hch.
  destruct (apply_tx_step s tx) as [tx err Hx|e nm key proof k Hn Ho Hk Hx|e i body Ho He Hvs Hx|e i g Hg Ho Hw Hx].
  - contradiction.
  - rewrite !document_at_FHE_allow, document_at_set_editor, document_at_push,
      document_at_set_document in Hch.
    destruct (decide (computeDocumentId nm = id)) as [<-|]; contradiction.
  - rewrite document_at_set_document in Hch |- *.
    destruct (decide (i = id)) as [<-|]; [|contradiction].
    exists body. simpl. by repeat split.
  - rewrite document_at_FHE_allow, document_at_set_editor in Hch. contradiction.
Qed.

Lemma getDocumentIds_cases offset limit s :
  0 <= offset -> 0 <= limit ->
  getDocumentIds offset limit s =
    if bool_decide (offset < getDocumentCount s ∧ offset + limit > max_uint256)
    then Some (inl (Panic PANIC_OVERFLOW))
    else Some (inr (take (Z.to_nat limit) (drop (Z.to_nat offset) (_documentIds s)))).
Proof.
  intros Ho Hl. case_bool_decide as Hc.
  - destruct Hc. by apply getDocumentIds_overflow.
  - destruct (decide (offset + limit <= max_uint256)).
    + by apply getDocumentIds_slice.
    + assert (Hge : offset >= getDocumentCount s) by lia.
      unfold getDocumentIds, getDocumentCount in *.
      rewrite bool_decide_eq_true_2 by assumption.
      rewrite drop_ge by lia. by rewrite take_nil.
Qed.

(** X5. For an offset and a limit that are [uint256]s, [getDocumentIds]
    panics with the arithmetic overflow exactly when the offset is inside
    the registry and [offset + limit] exceeds [2^256 - 1]; in every other
    case it returns [limit] ids from position [offset] in registry order,
    fewer when the registry ends before (none when the offset is at or past
    the end). Its loop never reads or writes out of bounds. *)
Theorem X5_getDocumentIds_slice_or_overflow offset limit s :
  0 <= offset -> 0 <= limit ->
  getDocumentIds offset limit s =
    if bool_decide (offset < getDocumentCount s ∧ offset + limit > max_uint256)
    then Some (inl (Panic PANIC_OVERFLOW))
    else Some (inr (take (Z.to_nat limit) (drop (Z.to_nat offset) (_documentIds s)))).
Proof.
  apply getDocumentIds_cases.
Qed.


End LedgerMore.

(** *** The further properties at the sample history *)

Section SampleLedgerMore.
#[local] Existing Instance sample_externals.

Lemma sample_history_reachable : reachable (run initial sample_history).
Proof.
  exists sample_history. split; [|reflexivity].
  repeat (apply Forall_cons; split; [discriminate|]). constructor.
Qed.

Lemma X1_witness :
  NoDup (_documentIds (run initial sample_history)) ∧
  getDocumentCount (run initial sample_history) =
    Z.of_nat (size (_documents (run initial sample_history))) ∧
  ∀ id, id ∈ _documentIds (run initial sample_history) ↔
        is_Some (_documents (run initial sample_history) !! id).
Proof.
  exact (X1_registry_lists_each_document_once _ sample_history_reachable).
Defined.

Lemma X2_witness :
  name (document_at (run initial sample_history) 1008) ≠ "" ∧
  computeDocumentId (name (document_at (run initial sample_history) 1008)) = 1008.
Proof.
  apply (X2_document_id_is_hash_of_stored_name _ 1008 sample_history_reachable).
  vm_compute. discriminate.
Defined.

Lemma X3_witness :
  (encryptedKey (document_at (run initial sample_history) 1005), 2)
    ∈ acl (run initial sample_history) ∧
  (encryptedKey (document_at (run initial sample_history) 1005), this)
    ∈ acl (run initial sample_history).
Proof.
  apply (X3_editors_are_allowed_on_the_key _ 1005 2 sample_history_reachable).
  vm_compute. reflexivity.
Defined.

Lemma X4_witness :
  (∀ a, isEditor 1009 a (run initial sample_history) = false) ∧
  isEditor 1005 (owner (document_at (run initial sample_history) 1005))
    (run initial sample_history) = true.
Proof.
  split.
  - apply (X4_isEditor_false_without_document_true_for_owner _ 1009
             sample_history_reachable).
    vm_compute. reflexivity.
  - apply (X4_isEditor_false_without_document_true_for_owner _ 1005
             sample_history_reachable).
    vm_compute. discriminate.
Defined.

Lemma X5_witness :
  getDocumentIds 1 5 (run initial sample_history) =
    (if bool_decide (1 < getDocumentCount (run initial sample_history)
                     ∧ 1 + 5 > max_uint256)
     then Some (inl (Panic PANIC_OVERFLOW))
     else Some (inr (take (Z.to_nat 5)
                       (drop (Z.to_nat 1) (_documentIds (run initial sample_history)))))).
Proof.
  apply (X5_getDocumentIds_slice_or_overflow 1 5 (run initial sample_history)); lia.
Defined.


Lemma X7_witness :
  0 <= version (document_at (run initial sample_history) 1005) <= max_uint32 ∧
  0 <= createdAt (document_at (run initial sample_history) 1005) < 2 ^ 40 ∧
  0 <= updatedAt (document_at (run initial sample_history) 1005) < 2 ^ 40.
Proof.
  exact (X7_stored_numbers_fit_their_types _ 1005 sample_history_reachable).
Defined.

Lemma X8_witness :
  version (document_at (run (one_document "" 0) (tail sample_history)) 1005) =
    version (document_at (one_document "" 0) 1005)
    + Z.of_nat (length (successful_updates 1005 (one_document "" 0) (tail sample_history))) ∧
  version (document_at (one_document "" 0) 1005)
    <= version (document_at (run (one_document "" 0) (tail sample_history)) 1005) ∧
  encryptedBody (document_at (run (one_document "" 0) (tail sample_history)) 1005) =
    List.last (successful_updates 1005 (one_document "" 0) (tail sample_history))
      (encryptedBody (document_at (one_document "" 0) 1005)).
Proof.
  apply (X8_version_and_body_follow_updates (one_document "" 0) 1005 (tail sample_history)).
  vm_compute. discriminate.
Defined.

Lemma X9_witness :
  ∃ id s' log, createDocument (mkEnv 1 100) "a.txt" 7 "" initial = Return id s' log.
Proof.
  apply (proj1 (X9_createDocument_outcome (mkEnv 1 100) "a.txt" 7 "" initial)).
  split; [discriminate|]. split; [reflexivity|]. exists 7. reflexivity.
Defined.

Lemma X10_witness :
  ((mkEnv 1 102, GrantAccess 1005 2).2 = GrantAccess 1005 2 ∧ 2 ≠ 0 ∧
   owner (document_at (run initial (take 2 sample_history)) 1005) ≠ 0 ∧
   msg_sender (mkEnv 1 102, GrantAccess 1005 2).1 =
     owner (document_at (run initial (take 2 sample_history)) 1005)) ∨
  (∃ nm key proof, (mkEnv 1 102, GrantAccess 1005 2).2 = CreateDocument nm key proof ∧
   computeDocumentId nm = 1005 ∧ msg_sender (mkEnv 1 102, GrantAccess 1005 2).1 = 2 ∧
   owner (document_at (run initial (take 2 sample_history)) 1005) = 0).
Proof.
  apply (X10_only_owner_or_creation_adds_an_editor
           (run initial (take 2 sample_history)) (mkEnv 1 102, GrantAccess 1005 2) 1005 2);
    vm_compute; reflexivity.
Defined.

Lemma X11_witness :
  ∃ body, (mkEnv 2 103, UpdateEncryptedBody 1005 "v1:AAAA:BBBB").2 =
            UpdateEncryptedBody 1005 body ∧
    isEditor 1005 (msg_sender (mkEnv 2 103, UpdateEncryptedBody 1005 "v1:AAAA:BBBB").1)
      (run initial (take 3 sample_history)) = true ∧
    document_at (apply_tx (run initial (take 3 sample_history))
                   (mkEnv 2 103, UpdateEncryptedBody 1005 "v1:AAAA:BBBB")) 1005 =
      mkDocument (name (document_at (run initial (take 3 sample_history)) 1005)) body
        (encryptedKey (document_at (run initial (take 3 sample_history)) 1005))
        (owner (document_at (run initial (take 3 sample_history)) 1005))
        (createdAt (document_at (run initial (take 3 sample_history)) 1005))
        (uint40 (block_timestamp (mkEnv 2 103, UpdateEncryptedBody 1005 "v1:AAAA:BBBB").1))
        (version (document_at (run initial (take 3 sample_history)) 1005) + 1).
Proof.
  apply (X11_only_an_editor_changes_a_document
           (run initial (take 3 sample_history))
           (mkEnv 2 103, UpdateEncryptedBody 1005 "v1:AAAA:BBBB") 1005);
    vm_compute; discriminate.
Defined.

End SampleLedgerMore.

(** ** Part III, continued. Further properties of the client cipher *)

Local Open Scope N_scope.

(** *** Base64 of byte arrays *)

Lemma base64_encode_length_formula l :
  length (base64_encode l) = (4 * ((length l + 2) / 3))%nat.
Proof.
  induction l as [|a|a b|a b c rest IH] using list_triple_ind; try reflexivity.
  cbn [base64_encode length]. rewrite IH.
  generalize (length rest). intros n.
  replace (S (S (S n)) + 2)%nat with (1 * 3 + (n + 2))%nat by lia.
  rewrite Nat.div_add_l by lia. lia.
Qed.

(** X12. [bytesToBase64] never throws, and [base64ToBytes] gives back the
    bytes it was given, for every byte array. *)
Theorem X12_base64_round_trip b :
  ∃ text, bytesToBase64 b = inr text ∧ base64ToBytes text = inr b.
Proof.
  exists (base64_encode (String_fromCharCode b)).
  split; [apply bytesToBase64_spec|apply base64ToBytes_base64_encode].
Qed.

(** X13. The text [bytesToBase64] returns for [n] bytes has [4 * ceil(n / 3)]
    characters; each is a character of the base64 alphabet or [=], so none
    is a colon or white space. *)
Theorem X13_bytesToBase64_shape b :
  ∃ text, bytesToBase64 b = inr text ∧
    length text = (4 * ((length b + 2) / 3))%nat ∧
    Forall (λ c, (c = 61 ∨ ∃ n, n < 64 ∧ c = base64_char n) ∧
                 c ≠ 58 ∧ is_ascii_whitespace c = false) text.
Proof.
  exists (base64_encode (String_fromCharCode b)).
  split; [apply bytesToBase64_spec|]. split.
  - rewrite base64_encode_length_formula. unfold String_fromCharCode.
    by rewrite length_map.
  - rewrite base64_encode_sextets. apply Forall_app. split.
    + pose proof (base64_sextets_bound _ (String_fromCharCode_bound b)) as Hb.
      induction Hb as [|x sx Hx _ IH]; [constructor|].
      cbn [map]. constructor; [|exact IH].
      destruct (base64_char_class x) as (Hw & H61 & H58).
      split; [right; by exists x|by split].
    + destruct (base64_padding_cases (String_fromCharCode b)) as [->|[->| ->]];
        repeat constructor; (by left) || discriminate.
Qed.

(** *** Refusing what is not base64 *)

Lemma elem_of_rev {A} (x : A) l : x ∈ rev l ↔ x ∈ l.
Proof. rewrite !list_elem_of_In. symmetry. apply in_rev. Qed.

Lemma strip_padding_keeps data c :
  c ∈ data -> c ≠ 61 -> c ∈ strip_padding data.
Proof.
  intros Hin Hc. unfold strip_padding.
  assert (Hrev : c ∈ rev data) by by apply elem_of_rev.
  destruct (rev data) as [|c1 [|c2 r]] eqn:Er; [assumption| |].
  - destruct (N.eqb_spec c1 61) as [->|]; [|assumption].
    apply list_elem_of_singleton in Hrev. contradiction.
  - destruct (N.eqb_spec c1 61) as [->|]; [|assumption].
    apply elem_of_cons in Hrev as [?|Hrev]; [contradiction|].
    destruct (N.eqb_spec c2 61) as [->|].
    + apply elem_of_cons in Hrev as [?|Hrev]; [contradiction|].
      by apply elem_of_rev.
    + by apply elem_of_rev.
Qed.

Lemma atob_error data e : atob data = inl e -> e = InvalidCharacterError.
Proof.
  unfold atob. destruct (_ =? 1); [congruence|]. destruct (mapM _ _); congruence.
Qed.

Lemma base64ToBytes_foreign_character text c :
  c ∈ text ->
  is_ascii_whitespace c = false -> c ≠ 61 -> base64_index c = None ->
  base64ToBytes text = inl InvalidCharacterError.
Proof.
  intros Hin Hw H61 Hidx. unfold base64ToBytes.
  destruct (atob text) as [e|binary] eqn:Ha; [by rewrite (atob_error _ _ Ha)|].
  exfalso. unfold atob in Ha.
  set (d1 := List.filter _ text) in Ha.
  assert (H1 : c ∈ d1).
  { apply list_elem_of_In, filter_In. split; [by apply list_elem_of_In|by rewrite Hw]. }
  set (d2 := if _ =? 0 then _ else _) in Ha.
  assert (H2 : c ∈ d2).
  { unfold d2. destruct (_ =? 0); [by apply strip_padding_keeps|assumption]. }
  destruct (_ =? 1); [discriminate|].
  destruct (mapM base64_index d2) as [sx|] eqn:Hm; [|discriminate].
  apply mapM_Some_1 in Hm.
  apply list_elem_of_lookup in H2 as [i Hi].
  destruct (Forall2_lookup_l _ _ _ _ _ Hm Hi) as (y & _ & Hy). congruence.
Qed.

(** X18. [base64ToBytes] throws InvalidCharacterError, and nothing else, on a
    text that holds a character which is not white space, not [=], and not
    in the base64 alphabet. *)
Theorem X18_base64ToBytes_refuses_foreign_characters text c :
  c ∈ text ->
  is_ascii_whitespace c = false -> c ≠ 61 -> base64_index c = None ->
  base64ToBytes text = inl InvalidCharacterError ∧
  ∀ text' e, base64ToBytes text' = inl e -> e = InvalidCharacterError.
Proof.
  intros Hin Hw H61 Hidx. split; [by apply (base64ToBytes_foreign_character text c)|].
  intros text' e. unfold base64ToBytes.
  destruct (atob text') eqn:Ha; [|discriminate].
  intros [= <-]. by apply (atob_error text').
Qed.

(** *** The key *)

Lemma js_well_formed str : well_formed (js str) = true ∧ head (js str) ≠ Some 0xFEFF.
Proof.
  unfold js.
  assert (Hb : Forall (λ c, c < 256) (map N_of_ascii (list_ascii_of_string str))).
  { apply Forall_map, Forall_forall. intros a _. apply N_ascii_bounded. }
  revert Hb. generalize (map N_of_ascii (list_ascii_of_string str)). intros l Hb.
  split.
  - induction Hb as [|c l Hc _ IH]; [reflexivity|].
    cbn [well_formed]. unfold is_lead_surrogate, is_trail_surrogate.
    rewrite (proj2 (N.leb_gt 0xD800 c)) by lia.
    rewrite (proj2 (N.leb_gt 0xDC00 c)) by lia.
    rewrite (proj2 (N.ltb_lt c 65536)) by lia. cbn [andb negb]. exact IH.
  - destruct Hb as [|c l Hc _]; [discriminate|]. cbn [head]. intros [= ->]. lia.
Qed.

Lemma js_inj s1 s2 : js s1 = js s2 -> s1 = s2.
Proof.
  unfold js. intros Hm.
  rewrite <- (string_of_list_ascii_of_string s1), <- (string_of_list_ascii_of_string s2).
  f_equal. revert Hm.
  generalize (list_ascii_of_string s1) (list_ascii_of_string s2).
  induction l as [|a l IH]; intros [|b l']; cbn [map]; try discriminate; [reflexivity|].
  intros [= Hab Hl]. f_equal; [|by apply IH].
  rewrite <- (ascii_N_embedding a), <- (ascii_N_embedding b). by rewrite Hab.
Qed.

Lemma TextEncoder_encode_js_inj s1 s2 :
  TextEncoder_encode (js s1) = TextEncoder_encode (js s2) -> s1 = s2.
Proof.
  intros He. apply js_inj.
  destruct (js_well_formed s1) as [Hw1 Hb1]. destruct (js_well_formed s2) as [Hw2 Hb2].
  rewrite <- (TextDecoder_TextEncoder_roundtrip (js s1)) by assumption.
  rewrite <- (TextDecoder_TextEncoder_roundtrip (js s2)) by assumption.
  by rewrite He.
Qed.

Lemma to_int_not_nil z : Z.to_int z ≠ Decimal.Pos Decimal.Nil ∧ Z.to_int z ≠ Decimal.Neg Decimal.Nil.
Proof.
  destruct z as [|p|p]; cbn; split; try discriminate.
  - intros [= Hp]. by apply (Unsigned.to_uint_nonnil p).
  - intros [= Hp]. by apply (Unsigned.to_uint_nonnil p).
Qed.

Lemma bigint_toString_inj a b : bigint_toString a = bigint_toString b -> a = b.
Proof.
  unfold bigint_toString. intros Hs. apply js_inj in Hs.
  apply DecimalZ.to_int_inj.
  destruct (to_int_not_nil a) as [Ha1 Ha2]. destruct (to_int_not_nil b) as [Hb1 Hb2].
  pose proof (NilZero.isi _ Ha1 Ha2) as Ia. pose proof (NilZero.isi _ Hb1 Hb2) as Ib.
  rewrite Hs in Ia. congruence.
Qed.

(** X16. On a platform whose digest has 32 bytes [deriveAesKeyFromSecret]
    always resolves, to the SHA-256 digest of the UTF-8 bytes of the decimal
    digits of the secret; and two secrets that differ are digested from
    different bytes, so two secrets share a key only where SHA-256
    collides. *)
Theorem X16_key_is_digest_of_decimal_digits W entropy :
  WebCrypto_lawful W ->
  (∀ secret,
     settle W entropy (deriveAesKeyFromSecret secret) =
       inr (SHA256 W (TextEncoder_encode (bigint_toString secret)))) ∧
  (∀ a b,
     TextEncoder_encode (bigint_toString a) = TextEncoder_encode (bigint_toString b) ->
     a = b).
Proof.
  intros HW. split.
  - intros secret. by apply settle_deriveAesKeyFromSecret.
  - intros a b He. apply bigint_toString_inj. unfold bigint_toString in *.
    f_equal. by apply TextEncoder_encode_js_inj.
Qed.

(** *** Payloads *)

(** X14. On a lawful platform [encryptDocumentBody] always resolves, to a
    payload of three parts: [v1], the base64 of the 12 random bytes, and the
    base64 of the AES-GCM ciphertext of the UTF-8 bytes of the plaintext
    under the derived key. On such a payload, whatever the secret,
    [decryptDocumentBody] never fails with the format error or inside
    [atob]: it resolves to the decoding of what AES-GCM returns, or is
    rejected with OperationError when AES-GCM refuses. *)
Theorem X14_encrypted_payload_shape W entropy secret plaintext :
  WebCrypto_lawful W ->
  ∃ iv ct,
    length iv = 12%nat ∧
    ct = AES_GCM_encrypt W (derived_key W secret) iv (TextEncoder_encode plaintext) ∧
    settle W entropy (encryptDocumentBody secret plaintext) = inr (payload_of iv ct) ∧
    split_on 58 (payload_of iv ct) =
      [js "v1"; base64_encode (String_fromCharCode iv);
       base64_encode (String_fromCharCode ct)] ∧
    base64ToBytes (base64_encode (String_fromCharCode iv)) = inr iv ∧
    base64ToBytes (base64_encode (String_fromCharCode ct)) = inr ct ∧
    ∀ entropy' secret',
      settle W entropy' (decryptDocumentBody secret' (payload_of iv ct)) =
        match AES_GCM_decrypt W (derived_key W secret') iv ct with
        | Some clear => inr (TextDecoder_decode clear)
        | None => inl OperationError
        end.
Proof.
  intros HW. exists (take 12 (entropy ++ replicate 12 x00)). eexists.
  split; [|split; [reflexivity|]].
  - rewrite length_take, length_app, length_replicate. lia.
  - split; [by apply encryptDocumentBody_settles|].
    split; [apply split_on_payload_of|].
    split; [apply base64ToBytes_base64_encode|].
    split; [apply base64ToBytes_base64_encode|].
    intros entropy' secret'. by apply decryptDocumentBody_payload_of.
Qed.

(** X15. On a lawful platform, for every string of code units: decrypting
    what [encryptDocumentBody] made of it, with the same secret, resolves
    to the string as UTF-8 carries it: every unpaired surrogate replaced by
    U+FFFD, and one leading U+FEFF dropped. *)
Theorem X15_round_trip_of_any_string W entropy entropy' secret plaintext :
  WebCrypto_lawful W ->
  Forall is_code_unit plaintext ->
  ∃ payload,
    settle W entropy (encryptDocumentBody secret plaintext) = inr payload ∧
    settle W entropy' (decryptDocumentBody secret payload) =
      inr (flat_map utf16_encode_scalar (strip_BOM (to_scalar_values plaintext))).
Proof. apply decrypt_encrypt. Qed.

Lemma split_on_not_nil sep s : split_on sep s ≠ [].
Proof.
  destruct s as [|c rest]; [discriminate|]. cbn [split_on].
  destruct (c =? sep); [discriminate|]. destruct (split_on sep rest); discriminate.
Qed.

Lemma split_on_join sep s :
  join_with sep (split_on sep s) = s ∧
  Forall (Forall (λ c, c ≠ sep)) (split_on sep s).
Proof.
  induction s as [|c rest [IHj IHf]].
  - split; [reflexivity|repeat constructor].
  - cbn [split_on]. destruct (N.eqb_spec c sep) as [->|Hne].
    + pose proof (split_on_not_nil sep rest) as Hnn.
      destruct (split_on sep rest) as [|p ps] eqn:Es; [contradiction|].
      split.
      * change (join_with sep ([] :: p :: ps)) with (sep :: join_with sep (p :: ps)).
        by rewrite IHj.
      * constructor; [constructor|exact IHf].
    + pose proof (split_on_not_nil sep rest) as Hnn.
      destruct (split_on sep rest) as [|p ps] eqn:Es; [contradiction|].
      apply Forall_cons in IHf as [Hp Hps]. split.
      * destruct ps as [|q qs]; cbn [join_with app] in *; by rewrite IHj.
      * constructor; [by constructor|assumption].
Qed.

(** X17. A non-empty payload passes the format check of
    [decryptDocumentBody] exactly when it is [v1:], a part without colon, a
    colon, and a second part without colon; every other non-empty payload
    is rejected with the format error. *)
Theorem X17_format_check secret payload :
  payload ≠ [] ->
  (decryptDocumentBody secret payload ≠ Reject Error_UnsupportedFormat ↔
   ∃ p1 p2, payload = js "v1:" ++ p1 ++ js ":" ++ p2 ∧
            Forall (λ c, c ≠ 58) p1 ∧ Forall (λ c, c ≠ 58) p2).
Proof.
  intros Hne. split.
  - intros Hok. destruct (split_on_join 58 payload) as [Hj Hf].
    unfold decryptDocumentBody in Hok.
    rewrite bool_decide_eq_false_2 in Hok by assumption.
    destruct (split_on 58 payload) as [|p0 [|p1 [|p2 [|p3 ps]]]] eqn:Hs;
      try (exfalso; apply Hok; reflexivity).
    cbn [length nth Nat.eqb negb orb] in Hok.
    destruct (decide (p0 = js "v1")) as [->|Htag].
    2:{ rewrite (bool_decide_eq_false_2 _ Htag) in Hok. exfalso. by apply Hok. }
    exists p1, p2. split; [by rewrite <- Hj|].
    apply Forall_cons in Hf as [_ Hf]. apply Forall_cons in Hf as [H1 Hf].
    apply Forall_cons in Hf as [H2 _]. by split.
  - intros (p1 & p2 & -> & H1 & H2).
    assert (Hs : split_on 58 (js "v1:" ++ p1 ++ js ":" ++ p2) = [js "v1"; p1; p2]).
    { change (js "v1:" ++ ?x) with (js "v1" ++ 58 :: x).
      change (js ":" ++ ?x) with (58 :: x).
      rewrite split_on_app by (repeat constructor; discriminate).
      rewrite split_on_app by assumption. by rewrite split_on_no_sep. }
    unfold decryptDocumentBody.
    rewrite bool_decide_eq_false_2 by assumption.
    rewrite Hs. cbn [length nth Nat.eqb negb orb].
    rewrite bool_decide_eq_true_2 by reflexivity. discriminate.
Qed.

(** X19. On a lawful platform, a payload of the three parts whose vector or
    ciphertext part holds a character that is neither base64 nor white
    space is rejected with the InvalidCharacterError of [atob]: a third kind
    of failure, neither the format error nor the OperationError of the
    cipher. *)
Theorem X19_foreign_character_rejects_with_InvalidCharacterError
    W entropy secret payload p1 p2 c :
  WebCrypto_lawful W ->
  split_on 58 payload = [js "v1"; p1; p2] ->
  c ∈ p1 ∨ c ∈ p2 ->
  is_ascii_whitespace c = false -> c ≠ 61 -> base64_index c = None ->
  settle W entropy (decryptDocumentBody secret payload) = inl InvalidCharacterError.
Proof.
  intros HW Hs Hin Hw H61 Hidx.
  rewrite (decryptDocumentBody_three_parts _ _ _ _ _ _ Hs).
  rewrite settle_deriveAesKeyFromSecret by assumption.
  destruct Hin as [Hin|Hin].
  - by rewrite (base64ToBytes_foreign_character p1 c).
  - destruct (base64ToBytes p1) as [e|iv] eqn:E1.
    + unfold base64ToBytes in E1. destruct (atob p1) eqn:Ha; [|discriminate].
      injection E1 as <-. by rewrite (atob_error _ _ Ha).
    + by rewrite (base64ToBytes_foreign_character p2 c).
Qed.

(** *** The further properties on the sample platform *)

Lemma X14_witness :
  ∃ iv ct,
    length iv = 12%nat ∧
    ct = AES_GCM_encrypt sample_crypto (derived_key sample_crypto 1234567890) iv
           (TextEncoder_encode (js "hi")) ∧
    settle sample_crypto sample_entropy (encryptDocumentBody 1234567890 (js "hi")) =
      inr (payload_of iv ct) ∧
    split_on 58 (payload_of iv ct) =
      [js "v1"; base64_encode (String_fromCharCode iv);
       base64_encode (String_fromCharCode ct)] ∧
    base64ToBytes (base64_encode (String_fromCharCode iv)) = inr iv ∧
    base64ToBytes (base64_encode (String_fromCharCode ct)) = inr ct ∧
    ∀ entropy' secret',
      settle sample_crypto entropy' (decryptDocumentBody secret' (payload_of iv ct)) =
        match AES_GCM_decrypt sample_crypto (derived_key sample_crypto secret') iv ct with
        | Some clear => inr (TextDecoder_decode clear)
        | None => inl OperationError
        end.
Proof.
  exact (X14_encrypted_payload_shape sample_crypto sample_entropy 1234567890 (js "hi")
           sample_crypto_lawful).
Defined.

Lemma X15_witness :
  ∃ payload,
    settle sample_crypto sample_entropy
      (encryptDocumentBody 1234567890 [0xFEFF; 0xD800; 104]) = inr payload ∧
    settle sample_crypto []
      (decryptDocumentBody 1234567890 payload) =
      inr (flat_map utf16_encode_scalar (strip_BOM (to_scalar_values [0xFEFF; 0xD800; 104]))).
Proof.
  apply (X15_round_trip_of_any_string sample_crypto sample_entropy [] 1234567890
           [0xFEFF; 0xD800; 104] sample_crypto_lawful).
  repeat (apply Forall_cons; split; [unfold is_code_unit; lia|]). constructor.
Defined.

Lemma X16_witness :
  settle sample_crypto sample_entropy (deriveAesKeyFromSecret 1234567890) =
    inr (SHA256 sample_crypto (TextEncoder_encode (bigint_toString 1234567890))).
Proof.
  apply (proj1 (X16_key_is_digest_of_decimal_digits sample_crypto sample_entropy
                  sample_crypto_lawful)).
Defined.

Lemma X17_witness :
  decryptDocumentBody 1234567890 (js "v1:AQID:aGk=") ≠ Reject Error_UnsupportedFormat ↔
  ∃ p1 p2, js "v1:AQID:aGk=" = js "v1:" ++ p1 ++ js ":" ++ p2 ∧
           Forall (λ c, c ≠ 58) p1 ∧ Forall (λ c, c ≠ 58) p2.
Proof.
  apply (X17_format_check 1234567890%Z (js "v1:AQID:aGk=")). discriminate.
Defined.

Lemma X18_witness :
  base64ToBytes (js "aG*k") = inl InvalidCharacterError ∧
  ∀ text' e, base64ToBytes text' = inl e -> e = InvalidCharacterError.
Proof.
  apply (X18_base64ToBytes_refuses_foreign_characters (js "aG*k") 42).
  - vm_compute. apply list_elem_of_In. right. right. left. reflexivity.
  - reflexivity.
  - discriminate.
  - reflexivity.
Defined.

Lemma X19_witness :
  settle sample_crypto sample_entropy
    (decryptDocumentBody 1234567890 (js "v1:AQIDBAUGBwgJCgsM:aG*k")) =
    inl InvalidCharacterError.
Proof.
  apply (X19_foreign_character_rejects_with_InvalidCharacterError
           sample_crypto sample_entropy 1234567890%Z
           (js "v1:AQIDBAUGBwgJCgsM:aG*k") (js "AQIDBAUGBwgJCgsM") (js "aG*k") 42).
  - apply sample_crypto_lawful.
  - vm_compute. reflexivity.
  - right. vm_compute. apply list_elem_of_In. right. right. left. reflexivity.
  - reflexivity.
  - discriminate.
  - reflexivity.
Defined.

Local Close Scope N_scope.

(** *** Helpers of the frontend *)

(** X20. For two 32 bit random words [generate10DigitSecret] returns a
    number of exactly ten decimal digits (from [10^9] to [10^10 - 1]), which
    fits the 64 bits of the encrypted input; and every such number is
    returned for some pair of words. *)
Theorem X20_generate10DigitSecret_range :
  (∀ random0 random1,
     0 <= random0 < 2 ^ 32 -> 0 <= random1 < 2 ^ 32 ->
     10 ^ 9 <= generate10DigitSecret random0 random1 < 10 ^ 10 ∧
     generate10DigitSecret random0 random1 < 2 ^ 64) ∧
  (∀ n, 10 ^ 9 <= n < 10 ^ 10 ->
     ∃ random0 random1,
       0 <= random0 < 2 ^ 32 ∧ 0 <= random1 < 2 ^ 32 ∧
       generate10DigitSecret random0 random1 = n).
Proof.
  split.
  - intros r0 r1 H0 H1. unfold generate10DigitSecret. cbv zeta.
    rewrite Z.shiftl_mul_pow2 by lia.
    rewrite Z.rem_mod_nonneg by lia.
    pose proof (Z.mod_pos_bound (r0 * 2 ^ 32 + r1) 9000000000 eq_refl). lia.
  - intros n Hn. exists ((n - 10 ^ 9) / 2 ^ 32), ((n - 10 ^ 9) mod 2 ^ 32).
    pose proof (Z.mod_pos_bound (n - 10 ^ 9) (2 ^ 32) eq_refl) as Hm.
    assert (Hd : 0 <= (n - 10 ^ 9) / 2 ^ 32 < 2 ^ 32).
    { split; [apply Z.div_pos; lia|]. apply Z.div_lt_upper_bound; lia. }
    split; [exact Hd|]. split; [exact Hm|].
    unfold generate10DigitSecret. cbv zeta.
    rewrite Z.shiftl_mul_pow2 by lia.
    rewrite (Z.mul_comm _ (2 ^ 32)), <- Z.div_mod by lia.
    rewrite Z.rem_mod_nonneg by lia.
    rewrite Z.mod_small by lia. lia.
Qed.

Lemma X20_witness :
  10 ^ 9 <= generate10DigitSecret 4294967295 4294967295 < 10 ^ 10 ∧
  generate10DigitSecret 4294967295 4294967295 < 2 ^ 64.
Proof.
  apply (proj1 X20_generate10DigitSecret_range); lia.
Defined.

Lemma String_slice_prefix s n :
  0 <= n -> String_slice s 0 n = take (Z.to_nat n) s.
Proof.
  intros Hn. unfold String_slice. cbn [Z.ltb Z.compare].
  rewrite (proj2 (Z.ltb_ge n 0)) by lia.
  rewrite (Z.min_l 0) by lia. rewrite drop_0, Z.sub_0_r.
  destruct (Z.min_spec n (Z.of_nat (length s))) as [[? ->]|[? ->]]; [reflexivity|].
  rewrite !take_ge; [reflexivity|lia|lia].
Qed.

Lemma String_slice_suffix s n :
  0 < n -> String_slice s (- n) (Z.of_nat (length s)) =
           drop (length s - Z.to_nat n) s.
Proof.
  intros Hn. unfold String_slice.
  rewrite (proj2 (Z.ltb_lt (- n) 0)) by lia.
  rewrite (proj2 (Z.ltb_ge (Z.of_nat (length s)) 0)) by lia.
  rewrite Z.min_id.
  rewrite take_ge by (rewrite length_drop; lia).
  f_equal. lia.
Qed.

Lemma String_slice_whole s :
  String_slice s (- 0) (Z.of_nat (length s)) = s.
Proof.
  unfold String_slice. cbn [Z.opp Z.ltb Z.compare].
  rewrite (proj2 (Z.ltb_ge (Z.of_nat (length s)) 0)) by lia.
  rewrite Z.min_id, (Z.min_l 0) by lia. rewrite drop_0, Z.sub_0_r.
  apply take_ge. lia.
Qed.

(** X21. [shortHex] with non-negative integers [start] and [end]: a value of
    at most [start + end + 2] characters is returned as it is; a longer one
    becomes its first [start + 2] characters, an ellipsis, and its last
    [end] characters, [start + end + 3] characters in all, when [end] is
    positive; with [end = 0] the ellipsis is followed by the whole value,
    because [slice(-0)] is [slice(0)]. *)
Theorem X21_shortHex start end_ value :
  0 <= start -> 0 <= end_ ->
  (Z.of_nat (length value) <= start + end_ + 2 -> shortHex value start end_ = value) ∧
  (start + end_ + 2 < Z.of_nat (length value) -> 0 < end_ ->
     shortHex value start end_ =
       take (Z.to_nat (start + 2)) value ++ [8230%N]
       ++ drop (length value - Z.to_nat end_) value ∧
     Z.of_nat (length (shortHex value start end_)) = start + end_ + 3) ∧
  (start + 2 < Z.of_nat (length value) -> end_ = 0 ->
     shortHex value start end_ =
       take (Z.to_nat (start + 2)) value ++ [8230%N] ++ value).
Proof.
  intros Hs He. unfold shortHex. split; [|split].
  - intros Hl. case_bool_decide as Hv; [by subst|].
    by rewrite bool_decide_eq_true_2.
  - intros Hl Hpos.
    rewrite bool_decide_eq_false_2 by (intros ->; simpl in Hl; lia).
    rewrite bool_decide_eq_false_2 by lia.
    rewrite String_slice_prefix, String_slice_suffix by lia.
    split; [reflexivity|].
    rewrite !length_app, length_take, length_drop. simpl length. lia.
  - intros Hl ->.
    rewrite bool_decide_eq_false_2 by (intros ->; simpl in Hl; lia).
    rewrite bool_decide_eq_false_2 by lia.
    by rewrite String_slice_prefix, String_slice_whole by lia.
Qed.

Lemma X21_witness :
  shortHex (js "0x1234567890abcdef") 6 4 = js "0x123456" ++ [8230%N] ++ js "cdef" ∧
  Z.of_nat (length (shortHex (js "0x1234567890abcdef") 6 4)) = 6 + 4 + 3.
Proof.
  apply (X21_shortHex 6 4 (js "0x1234567890abcdef")); [lia|lia|vm_compute; reflexivity|lia].
Defined.
